(** * equitrends_python.py: folded-normal functions, constrained OLS,
      residual variance and the IU threshold search

    A shallow embedding of [src/python/equitrends_python.py].

    - A Python [float] (and a numpy [float64]) is an IEEE 754 binary64 number:
      Rocq's primitive [float], with the same rounding, infinities and NaN.
    - A Python [int] is a [Z]; a 1-D array is a [list], a 2-D array the list of
      its rows, all of one length. The functions are modelled from the
      arrays on, after [np.asarray] has accepted their arguments.
    - [raise ValueError(...)] is the [Raise] case of [result]; the f-string of
      the message is kept as a constructor holding the formatted values.
    - scipy's [norm.cdf], [norm.ppf], [foldnorm.ppf], [minimize_scalar] and
      [minimize] are not code of this module: they are Section variables, so
      every theorem holds whatever they compute.
    - numpy's sum and matrix-vector product round in an order that depends
      on its build (pairwise blocks, BLAS): they are the two fields of the
      record [numpy], and every theorem holds whatever they compute. *)

From Stdlib Require Import String.
From Stdlib Require Import ZArith List Bool Lia Sorted Permutation.
From Stdlib Require Import Floats.
From Stdlib Require Uint63.
Import ListNotations.

#[local] Set Warnings "-inexact-float".
#[local] Open Scope float_scope.

(** ** Exceptions *)

Inductive message : Type :=
| must_be_strictly_between_0_and_1 (param_name : string) (got : float)
| must_be_strictly_positive (param_name : string) (got : float)
| must_be_non_negative (param_name : string) (got : float)
| no_placebos_must_be_at_least_1 (got : Z)
| ID_array_cannot_be_empty
| time_array_cannot_be_empty
| degrees_of_freedom_must_be_positive (df N p n T : Z)
| zero_size_array_to_reduction          (* numpy: max of an empty array *)
| operands_could_not_be_broadcast       (* numpy: shapes do not fit *)
| matmul_dimension_mismatch             (* numpy: [@] on unequal lengths *)
| optimization_bounds_must_be_finite_scalars   (* scipy, bounded method *)
| the_lower_bound_exceeds_the_upper_bound.     (* scipy, bounded method *)

Inductive exn : Type :=
| ValueError (msg : message)
| IndexError.

Inductive result (A : Type) : Type :=
| Ok (a : A)
| Raise (e : exn).
Arguments Ok {A} a.
Arguments Raise {A} e.

Definition bind {A B : Type} (m : result A) (k : A -> result B) : result B :=
  match m with
  | Ok a => k a
  | Raise e => Raise e
  end.

Declare Scope result_scope.
Delimit Scope result_scope with result.
Notation "x <- m ;; k" := (bind m (fun x => k))
  (at level 100, m at next level, right associativity) : result_scope.
Notation "m ;; k" := (bind m (fun _ => k))
  (at level 100, right associativity) : result_scope.

(** ** Python and numpy primitives on floats *)

(** Python's builtin [max(a, b)] and [min(a, b)]: the first argument is kept
    unless the second is strictly greater (smaller). *)
Definition py_max (a b : float) : float := if a <? b then b else a.
Definition py_min (a b : float) : float := if b <? a then b else a.

(** [float(k)] for a Python int [k] (exact for [0 <= k < 2^53], correctly
    rounded below [2^63]; array lengths never reach that). *)
Definition float_of_int (k : Z) : float := of_uint63 (Uint63.of_Z k).

(** numpy's [maximum]: [(in1 >= in2 || isnan(in1)) ? in1 : in2], so a NaN
    on either side is returned. *)
Definition np_maximum (in1 in2 : float) : float :=
  if (in2 <=? in1) || is_nan in1 then in1 else in2.

(** [np.max(a)] of a 1-D array: a left-to-right reduction with [np_maximum];
    numpy raises ValueError on an empty array. (The module applies it to
    absolute values only, where the order of the reduction does not show:
    they hold no negative zero, and a NaN comes through in any order.) *)
Definition np_max (a : list float) : result float :=
  match a with
  | [] => Raise (ValueError zero_size_array_to_reduction)
  | a0 :: rest => Ok (fold_left np_maximum rest a0)
  end.

Definition np_abs (a : list float) : list float := map abs a.

(** [np.clip(a, a_min, a_max)] on a scalar: numpy computes
    [MIN(MAX(a, a_min), a_max)] where both keep a NaN first argument. *)
Definition np_clip (a a_min a_max : float) : float :=
  let lo := if is_nan a || (a_min <? a) then a else a_min in
  if is_nan lo || (lo <? a_max) then lo else a_max.

(** The two operations of numpy whose rounding is its build's own:
    [np.add.reduce] on a 1-D array (long arrays are added in unrolled
    pairwise blocks, in vector registers where the processor has them), and
    the entries of [X @ v] (computed by BLAS, with its own order of additions
    and fused multiply-adds). [matvec_entry X v i] is entry [i] of [X @ v]
    for a 2-D [X] whose rows are as long as [v]. *)
Record numpy : Type :=
  { add_reduce : list float -> float;
    matvec_entry : list (list float) -> list float -> nat -> float }.

(** [np.sum(a)]. *)
Definition np_sum (np : numpy) (a : list float) : float := add_reduce np a.

(** [np.mean(a)]: the sum over the length. *)
Definition np_mean (np : numpy) (a : list float) : float :=
  np_sum np a / float_of_int (Z.of_nat (length a)).

(** [a ** 2] elementwise. *)
Definition np_square (a : list float) : list float := map (fun r => r * r) a.

(** [a - b] on 1-D arrays, with numpy's broadcasting of a length-1 side. *)
Definition np_sub (a b : list float) : result (list float) :=
  if Nat.eqb (length a) (length b) then
    Ok (map (fun ab => fst ab - snd ab) (combine a b))
  else
    match a, b with
    | [a0], _ => Ok (map (fun bi => a0 - bi) b)
    | _, [b0] => Ok (map (fun ai => ai - b0) a)
    | _, _ => Raise (ValueError operands_could_not_be_broadcast)
    end.

(** [X @ v] for a 1-D [v]. A list with at least one row is a 2-D array:
    numpy raises ValueError unless every row is as long as [v]. The empty
    list is a 1-D array of length 0 for numpy: against an empty [v] the
    product is the scalar [0.0] (kept as a one-element array, which
    broadcasts the same way), against any other [v] a ValueError. *)
Definition matmul (np : numpy) (X : list (list float)) (v : list float)
    : result (list float) :=
  match X with
  | [] =>
      if Nat.eqb (length v) 0 then Ok [0]
      else Raise (ValueError matmul_dimension_mismatch)
  | _ :: _ =>
      if forallb (fun row => Nat.eqb (length row) (length v)) X then
        Ok (map (matvec_entry np X v) (seq 0 (length X)))
      else Raise (ValueError matmul_dimension_mismatch)
  end.

(** [X.shape[1]]: the length of the rows; an array without rows is 1-D for
    numpy, whose shape has no index 1. *)
Definition shape1 (X : list (list float)) : result Z :=
  match X with
  | [] => Raise IndexError
  | row :: _ => Ok (Z.of_nat (length row))
  end.

(** [a[:k]] for a Python int [k >= 0]. *)
Definition slice_to {A : Type} (a : list A) (k : Z) : list A :=
  firstn (Z.to_nat k) a.

(** ** Constants for numerical stability *)

Definition _FOLDNORM_SD_MIN : float := 1e-15.
Definition _FOLDNORM_C_MAX : float := 1e10.

(** ** Parameter validation *)

#[local] Open Scope result_scope.

Definition _validate_probability (p : float) (param_name : string) : result unit :=
  if negb ((0 <? p) && (p <? 1)) then
    Raise (ValueError (must_be_strictly_between_0_and_1 param_name p))
  else Ok tt.

Definition _validate_positive (x : float) (param_name : string) : result unit :=
  if x <=? 0 then
    Raise (ValueError (must_be_strictly_positive param_name x))
  else Ok tt.

Definition _validate_non_negative (x : float) (param_name : string) : result unit :=
  if x <? 0 then
    Raise (ValueError (must_be_non_negative param_name x))
  else Ok tt.

(** ** Folded normal distribution *)

Section FoldedNormal.

(** [scipy.stats.norm.cdf], [scipy.stats.norm.ppf] and
    [scipy.stats.foldnorm.ppf(q, c, loc, scale)]: total on floats (scipy
    answers [nan] where a parameter is out of range). *)
Variable norm_cdf : float -> float.
Variable norm_ppf : float -> float.
Variable foldnorm_ppf : float -> float -> float -> float -> float.

Definition qfoldnorm (p mean sd : float) : result float :=
  _validate_probability p "p"%string ;;
  _validate_positive sd "sd"%string ;;
  if sd <? _FOLDNORM_SD_MIN then
    Ok (abs mean)
  else
    let c := abs mean / sd in
    if _FOLDNORM_C_MAX <? c then
      let result := abs mean + norm_ppf p * sd in
      Ok (py_max 0 result)
    else
      let result := foldnorm_ppf p c 0 sd in
      Ok result.

Definition pfoldnorm (x mean sd : float) : result float :=
  _validate_non_negative x "x"%string ;;
  _validate_positive sd "sd"%string ;;
  if sd <? _FOLDNORM_SD_MIN then
    Ok (if abs mean <=? x then 1 else 0)
  else
    let mu_abs := abs mean in
    let z1 := (x - mu_abs) / sd in
    let z2 := (x + mu_abs) / sd in
    let result := norm_cdf z1 + norm_cdf z2 - 1 in
    Ok (np_clip result 0 1).

End FoldedNormal.

(** ** Constrained OLS *)

(** What [scipy.optimize] hands back: the point found and the success flag. *)
Record OptimizeResult (X : Type) : Type := { x : X; success : bool }.
Arguments x {X} _.
Arguments success {X} _.

(** The [options] dictionary of a COBYLA call. *)
Record cobyla_options : Type :=
  { maxiter : Z; rhobeg : float; tol : float; catol : float }.

(** What a call does besides returning: each run of the optimizer and each
    [warnings.warn], in program order. *)
Inductive event : Type :=
| ev_minimize (x0 : list float) (options : cobyla_options)
| ev_warn (violation : float).

(** A computation that logs events and may raise. *)
Definition logged (A : Type) : Type := (list event * result A)%type.

Definition ret {A : Type} (a : A) : logged A := ([], Ok a).
Definition lift {A : Type} (r : result A) : logged A := ([], r).
Definition tell (e : event) : logged unit := ([e], Ok tt).
Definition lbind {A B : Type} (m : logged A) (k : A -> logged B) : logged B :=
  match snd m with
  | Ok a => (fst m ++ fst (k a), snd (k a))
  | Raise e => (fst m, Raise e)
  end.

Declare Scope logged_scope.
Delimit Scope logged_scope with logged.
Notation "x <- m ;; k" := (lbind m (fun x => k))
  (at level 100, m at next level, right associativity) : logged_scope.
Notation "m ;; k" := (lbind m (fun _ => k))
  (at level 100, right associativity) : logged_scope.

Section ConstrainedOLS.

Variable np : numpy.

(** [scipy.optimize.minimize(fun, x0, method='COBYLA', constraints=
    {'type': 'ineq', 'fun': g}, options=...)]. *)
Variable minimize :
  (list float -> result float) -> list float ->
  (list float -> result float) -> cobyla_options ->
  result (OptimizeResult (list float)).

Definition run_minimize (objective : list float -> result float)
    (x0 : list float) (constraint : list float -> result float)
    (options : cobyla_options) : logged (OptimizeResult (list float)) :=
  (tell (ev_minimize x0 options) ;;
   lift (minimize objective x0 constraint options))%logged.

(** The two closures of [constrained_ols]. *)
Definition objective (Y : list float) (X : list (list float))
    (beta : list float) : result float :=
  Xb <- matmul np X beta ;;
  residuals <- np_sub Y Xb ;;
  Ok (np_mean np (np_square residuals)).

Definition constraint (delta : float) (no_placebos : Z)
    (beta : list float) : result float :=
  m <- np_max (np_abs (slice_to beta no_placebos)) ;;
  Ok (m - delta).

Definition constrained_ols (Y : list float) (X : list (list float))
    (delta : float) (no_placebos : Z) (start_val : list float)
    (max_unconstr_coef : option float) : logged (list float * bool) :=
  (lift (_validate_positive delta "delta"%string) ;;
   lift (if (no_placebos <? 1)%Z then
           Raise (ValueError (no_placebos_must_be_at_least_1 no_placebos))
         else Ok tt) ;;
   max_unconstr_coef <-
     match max_unconstr_coef with
     | None => lift (np_max (np_abs (slice_to start_val no_placebos)))
     | Some given => ret given
     end ;;
   if delta <=? max_unconstr_coef then
     ret (start_val, true)
   else
     result <- run_minimize (objective Y X) start_val
                 (constraint delta no_placebos)
                 {| maxiter := 2000000; rhobeg := 0.5;
                    tol := 1e-8; catol := 1e-10 |} ;;
     result <- (if negb (success result) then
                  run_minimize (objective Y X) start_val
                    (constraint delta no_placebos)
                    {| maxiter := 5000000; rhobeg := 0.1;
                       tol := 1e-10; catol := 1e-12 |}
                else ret result) ;;
     c <- lift (constraint delta no_placebos (x result)) ;;
     let violation := - c in
     (if 1e-8 <? violation then tell (ev_warn violation) else ret tt) ;;
     ret (x result, success result))%logged.

End ConstrainedOLS.

(** ** Residual variance *)

(** [np.unique(a)]: the sorted array of the distinct values of [a]. *)
Fixpoint insert_unique (v : Z) (s : list Z) : list Z :=
  match s with
  | [] => [v]
  | h :: t =>
      match (v ?= h)%Z with
      | Lt => v :: s
      | Eq => s
      | Gt => h :: insert_unique v t
      end
  end.

Definition np_unique (a : list Z) : list Z := fold_right insert_unique [] a.

Definition len {A : Type} (a : list A) : Z := Z.of_nat (length a).

Definition sigma_hathat_c (np : numpy) (parameter : list float)
    (X : list (list float)) (Y : list float) (ID time : list Z)
    : result float :=
  (if (len ID =? 0)%Z then Raise (ValueError ID_array_cannot_be_empty)
   else Ok tt) ;;
  (if (len time =? 0)%Z then Raise (ValueError time_array_cannot_be_empty)
   else Ok tt) ;;
  Xb <- matmul np X parameter ;;
  residuals <- np_sub Y Xb ;;
  let N := len ID in
  let n := len (np_unique ID) in
  let T := len (np_unique time) in
  p <- shape1 X ;;
  let df := (N - p - n - T + 1)%Z in
  (if (df <=? 0)%Z then
     Raise (ValueError (degrees_of_freedom_must_be_positive df N p n T))
   else Ok tt) ;;
  let c_sigma_hathat := np_sum np (np_square residuals) / float_of_int df in
  Ok c_sigma_hathat.

(** ** Minimum threshold search, IU method *)

Section ThresholdSearch.

Variable norm_cdf : float -> float.

(** [scipy.optimize.minimize_scalar(fun, bounds=(lower, upper),
    method='bounded', options={'xatol': xatol})]. *)
Variable minimize_scalar :
  (float -> result float) -> float * float -> float ->
  result (OptimizeResult float).

(** The closure [objective] of [find_min_threshold_iu]. [(p - alpha)**2] is
    a Python float raised to the int 2, that is C's [pow(p - alpha, 2.0)]:
    it is taken to be the correctly rounded square, the product (a [pow]
    that is not correctly rounded may differ from it in the last place).
    [pow] raises OverflowError on overflow only, which the square of
    [p - alpha], a number between -1 and 1 or NaN, does not reach. *)
Definition iu_objective (coef sd alpha delta : float) : result float :=
  p <- pfoldnorm norm_cdf coef delta sd ;;
  Ok (1e20 * ((p - alpha) * (p - alpha))).

Definition find_min_threshold_iu (coef sd alpha : float) : result float :=
  _validate_non_negative coef "coef"%string ;;
  _validate_positive sd "sd"%string ;;
  _validate_probability alpha "alpha"%string ;;
  let lower_r := py_max 0 (coef - 10 * sd) in
  let upper_r := 10 * sd in
  let lower := py_min lower_r upper_r in
  let upper := py_max lower_r upper_r in
  result <- minimize_scalar (iu_objective coef sd alpha) (lower, upper) 1e-20 ;;
  Ok (x result).

End ThresholdSearch.

(** ** The vocabulary of the specification *)

(** The module raises [ValueError] only; the specification names two kinds
    of error, told apart here by what the message says. *)
Definition InvalidArgument (e : exn) : Prop :=
  match e with
  | ValueError (must_be_strictly_between_0_and_1 _ _)
  | ValueError (must_be_strictly_positive _ _)
  | ValueError (must_be_non_negative _ _)
  | ValueError (no_placebos_must_be_at_least_1 _)
  | ValueError ID_array_cannot_be_empty
  | ValueError time_array_cannot_be_empty => True
  | _ => False
  end.

(** The degrees-of-freedom error, reported with the dimensions behind it. *)
Definition DegreesOfFreedomError (N p n T : Z) (e : exn) : Prop :=
  e = ValueError (degrees_of_freedom_must_be_positive (N - p - n - T + 1) N p n T).

(** The number of distinct values of a sequence. *)
Definition distinct_count (a : list Z) : Z := len (nodup Z.eq_dec a).

(** [X] is an [N] by [p] matrix: [N] rows, at least one (numpy reads a
    list without rows as a 1-D array), each of length [p]. *)
Definition is_matrix (N p : nat) (X : list (list float)) : Prop :=
  (length X = N /\ X <> []) /\ Forall (fun row => length row = p) X.

(** [res] is the vector of residuals [Y - X beta]: as long as [Y], with
    [Y_i - (X beta)_i] at position [i]. *)
Definition is_residuals (np : numpy) (Y : list float) (X : list (list float))
    (beta res : list float) : Prop :=
  length res = length Y /\
  forall i y, nth_error Y i = Some y ->
              nth_error res i = Some (y - matvec_entry np X beta i).

(** [v] is the elements of [l] added up, in some order and grouping, from
    the neutral [0.0]. *)
Inductive added_up : list float -> float -> Prop :=
| added_none : added_up [] 0
| added_one (a : float) : added_up [a] a
| added_both (l1 l2 : list float) (v1 v2 : float) :
    added_up l1 v1 -> added_up l2 v2 -> added_up (l1 ++ l2) (v1 + v2)
| added_permuted (l l' : list float) (v : float) :
    Permutation l l' -> added_up l v -> added_up l' v.

(** What numpy's sum does on a 1-D array, whatever its build: short arrays
    are added from left to right, longer ones in blocks of eight interleaved
    partial sums, and the sums of the blocks pairwise; each way, the result
    is the elements added up in some order and grouping. *)
Definition adds_up (np : numpy) : Prop :=
  forall l, added_up l (np_sum np l).

(** The two-term formula of the folded-normal CDF, before clipping. *)
Definition two_term (Phi : float -> float) (x mean sd : float) : float :=
  Phi ((x - abs mean) / sd) + Phi ((x + abs mean) / sd) - 1.

(** The two values of [norm.cdf] that the formula adds are probabilities. *)
Definition cdf_values_in_unit (Phi : float -> float) (x mean sd : float) : Prop :=
  ((0 <=? Phi ((x - abs mean) / sd)) = true /\
   (Phi ((x - abs mean) / sd) <=? 1) = true) /\
  ((0 <=? Phi ((x + abs mean) / sd)) = true /\
   (Phi ((x + abs mean) / sd) <=? 1) = true).

(** What the specification asks of a bounded scalar minimiser: given an
    objective defined everywhere and [lower <= upper], it returns a point
    of [[lower, upper]]. *)
Definition bounded_search
    (minimize_scalar : (float -> result float) -> float * float -> float ->
                       result (OptimizeResult float)) : Prop :=
  forall f lower upper xatol,
    (forall d, exists y, f d = Ok y) ->
    (lower <=? upper) = true ->
    exists r, minimize_scalar f (lower, upper) xatol = Ok r /\
              (lower <=? x r) = true /\ (x r <=? upper) = true.

(** The value the fast-path test looks at. *)
Definition fast_path_value (start_val : list float) (no_placebos : Z)
    (max_unconstr_coef : option float) : result float :=
  match max_unconstr_coef with
  | None => np_max (np_abs (slice_to start_val no_placebos))
  | Some given => Ok given
  end.

(** The options of the first COBYLA run. *)
Definition first_run_options : cobyla_options :=
  {| maxiter := 2000000; rhobeg := 0.5; tol := 1e-8; catol := 1e-10 |}.

(** What is taken for granted of COBYLA: when the objective and the
    constraint are defined on every vector as long as [x0], it returns a
    point as long as [x0]. *)
Definition cobyla_returns
    (minimize : (list float -> result float) -> list float ->
                (list float -> result float) -> cobyla_options ->
                result (OptimizeResult (list float))) : Prop :=
  forall f x0 g options,
    (forall v, length v = length x0 -> exists y, f v = Ok y) ->
    (forall v, length v = length x0 -> exists c, g v = Ok c) ->
    exists r, minimize f x0 g options = Ok r /\ length (x r) = length x0.

(** ** Stand-ins for scipy and numpy, to run the model on concrete inputs *)

(** A numpy that adds and multiplies in index order. *)
Definition sum_in_order (a : list float) : float := fold_left PrimFloat.add a 0.
Definition dot_in_order (row v : list float) : float :=
  fold_left (fun acc rv => acc + fst rv * snd rv) (combine row v) 0.
Definition index_order : numpy :=
  {| add_reduce := sum_in_order;
     matvec_entry := fun X v i => dot_in_order (nth i X []) v |}.

(** A CDF that, like [norm.cdf], answers NaN at NaN. *)
Definition step_cdf_nan (z : float) : float :=
  if is_nan z then z else if z <? 0 then 0 else 1.

(** A bounded search that begins as scipy's does: both bounds must be
    finite, and the lower one must not exceed the upper one. *)
Definition checked_lower_end_search (f : float -> result float)
    (bounds : float * float) (xatol : float) : result (OptimizeResult float) :=
  if negb (is_finite (fst bounds) && is_finite (snd bounds)) then
    Raise (ValueError optimization_bounds_must_be_finite_scalars)
  else if snd bounds <? fst bounds then
    Raise (ValueError the_lower_bound_exceeds_the_upper_bound)
  else Ok {| x := fst bounds; success := true |}.

Definition step_cdf (z : float) : float := if z <? 0 then 0 else 1.
Definition plain_ppf (q : float) : float := q.
Definition plain_foldnorm_ppf (q c loc scale : float) : float :=
  loc + scale * (c + q).
Definition lower_end_search (f : float -> result float)
    (bounds : float * float) (xatol : float) : result (OptimizeResult float) :=
  Ok {| x := fst bounds; success := true |}.
Definition stay_put (f : list float -> result float) (x0 : list float)
    (g : list float -> result float) (options : cobyla_options)
    : result (OptimizeResult (list float)) :=
  Ok {| x := x0; success := false |}.

(** ** A panel for examples: 20 individuals over 5 periods

    [ID = np.repeat(np.arange(20), 5)], [time = np.tile(np.arange(5), 20)],
    a 100 by 3 design and the response that the coefficients fit exactly. *)

Definition panel_ID : list Z :=
  flat_map (fun i => repeat (Z.of_nat i) 5) (seq 0 20).
Definition panel_time : list Z :=
  concat (repeat (map Z.of_nat (seq 0 5)) 20).
Definition panel_X : list (list float) :=
  map (fun i => [float_of_int (Z.of_nat (i mod 5));
                 float_of_int (Z.of_nat (i mod 3)); 1])
      (seq 0 100).
Definition panel_beta : list float := [0.1; 0.2; 0.3].
Definition panel_Y : list float :=
  map (matvec_entry index_order panel_X panel_beta) (seq 0 100).

(** ** Signs of binary64 numbers *)

(** Not negative: NaN, a zero, or a number with a clear sign bit. *)
Definition SFnot_negative (a : spec_float) : Prop :=
  match a with
  | S754_nan | S754_zero _ => True
  | S754_infinity s | S754_finite s _ _ => s = false
  end.

(** NaN or sign bit [s]. *)
Definition SFsign_or_nan (s : bool) (a : spec_float) : Prop :=
  match a with
  | S754_nan => True
  | S754_zero s' | S754_infinity s' | S754_finite s' _ _ => s' = s
  end.

(** A zero or a finite non-zero number: neither NaN nor infinite. *)
Definition SFfinite (a : spec_float) : Prop :=
  match a with
  | S754_zero _ | S754_finite _ _ _ => True
  | S754_nan | S754_infinity _ => False
  end.

(** The binary64 number [a] is not negative. *)
Definition not_negative (a : float) : Prop := SFnot_negative (Prim2SF a).

(** A positive number of at least [M] binary digits before the point, that
    is at least [2^(M-1)], or plus infinity. *)
Definition SFat_least (M : Z) (a : spec_float) : Prop :=
  match a with
  | S754_infinity s => s = false
  | S754_finite s m e => s = false /\ (M <= Zpos (digits2_pos m) + e)%Z
  | _ => False
  end.

Definition at_least (M : Z) (a : float) : Prop := SFat_least M (Prim2SF a).

(** The exponent of a finite number is not below [emin]. *)
Definition SFexponent_in_range (emin : Z) (a : spec_float) : Prop :=
  match a with
  | S754_finite _ _ e => (emin <= e)%Z
  | _ => True
  end.

(** ** Vectorised quantile *)

(** What [qfoldnorm_vec] raises: its own ValueError on unequal lengths
    ("Arrays must have equal length: p=.., mean=.., sd=.."), or whatever
    [qfoldnorm] raised on an element. *)
Inductive vec_exn : Type :=
| arrays_must_have_equal_length (p mean sd : Z)
| in_element (e : exn).

Section VectorisedQuantile.

Variable norm_ppf : float -> float.
Variable foldnorm_ppf : float -> float -> float -> float -> float.

(** The loop [for i in range(len(p)): result[i] = qfoldnorm(p[i], mean[i],
    sd[i])]: an index past the end of [mean] or [sd] is an IndexError. *)
Fixpoint qfoldnorm_each (p mean sd : list float) : result (list float) :=
  match p with
  | [] => Ok []
  | pi :: p' =>
      match mean, sd with
      | mi :: mean', si :: sd' =>
          q <- qfoldnorm norm_ppf foldnorm_ppf pi mi si ;;
          rest <- qfoldnorm_each p' mean' sd' ;;
          Ok (q :: rest)
      | _, _ => Raise IndexError
      end
  end.

Definition qfoldnorm_vec (p mean sd : list float) : vec_exn + list float :=
  if negb ((len p =? len mean)%Z && (len mean =? len sd)%Z) then
    inl (arrays_must_have_equal_length (len p) (len mean) (len sd))
  else
    match qfoldnorm_each p mean sd with
    | Ok result => inr result
    | Raise e => inl (in_element e)
    end.

End VectorisedQuantile.

(** ** Minimum threshold search, Mean and Bootstrap methods *)

Section MeanAndBootstrapSearch.

Variable norm_cdf : float -> float.

(** [minimize_scalar(fun, bounds=.., method='bounded', options={'xatol': ..})]
    and the same call with scipy's default options. *)
Variable minimize_scalar :
  (float -> result float) -> float * float -> float ->
  result (OptimizeResult float).
Variable minimize_scalar_default :
  (float -> result float) -> float * float ->
  result (OptimizeResult float).

(** [np.exp]. *)
Variable np_exp : float -> float.

(** The closure [objective] of [find_min_threshold_mean], with the square
    as in [iu_objective]. *)
Definition mean_objective (coef sd alpha delta : float) : result float :=
  p <- pfoldnorm norm_cdf coef delta sd ;;
  Ok (1e100 * ((p - alpha) * (p - alpha))).

Definition find_min_threshold_mean (coef sd alpha : float) : result float :=
  _validate_non_negative coef "coef"%string ;;
  _validate_positive sd "sd"%string ;;
  _validate_probability alpha "alpha"%string ;;
  let lower := py_max 0 (coef - 4 * sd) in
  let upper := coef + 4 * sd in
  result <- minimize_scalar (mean_objective coef sd alpha) (lower, upper) 1e-25 ;;
  Ok (x result).

(** The closure [wrapper] of [find_min_threshold_bootstrap]; the caller's
    [bootstrap_test_func] may raise. *)
Definition wrapper (bootstrap_test_func : float -> result bool)
    (delta : float) : result float :=
  reject <- bootstrap_test_func delta ;;
  Ok (if reject : bool then - np_exp (- delta) else np_exp (- delta)).

Definition find_min_threshold_bootstrap
    (bootstrap_test_func : float -> result bool)
    (max_abs_coef max_sd : float) : result float :=
  _validate_non_negative max_abs_coef "max_abs_coef"%string ;;
  _validate_positive max_sd "max_sd"%string ;;
  let lower := max_abs_coef in
  let upper := max_abs_coef + 15 * max_sd in
  result <- minimize_scalar_default (wrapper bootstrap_test_func) (lower, upper) ;;
  Ok (x result).

End MeanAndBootstrapSearch.

(** The options of the second COBYLA run. *)
Definition second_run_options : cobyla_options :=
  {| maxiter := 5000000; rhobeg := 0.1; tol := 1e-10; catol := 1e-12 |}.

(** The bounded minimiser with default options, as [bounded_search]. *)
Definition bounded_search_default
    (minimize_scalar_default : (float -> result float) -> float * float ->
                               result (OptimizeResult float)) : Prop :=
  forall f lower upper,
    (forall d, exists y, f d = Ok y) ->
    (lower <=? upper) = true ->
    exists r, minimize_scalar_default f (lower, upper) = Ok r /\
              (lower <=? x r) = true /\ (x r <=? upper) = true.

(** More stand-ins for scipy and numpy. *)
Definition lower_end_search_default (f : float -> result float)
    (bounds : float * float) : result (OptimizeResult float) :=
  Ok {| x := fst bounds; success := true |}.
Definition crude_exp (z : float) : float :=
  if z <? 0 then 1 / (1 - z) else 1 + z.
Definition reject_above_3 (delta : float) : result bool := Ok (3 <? delta).
Definition succeed_at_once (f : list float -> result float) (x0 : list float)
    (g : list float -> result float) (options : cobyla_options)
    : result (OptimizeResult (list float)) :=
  Ok {| x := map (fun v => v + 1) x0; success := true |}.

(** * Properties *)

(** ** Comparisons of binary64 numbers *)

Lemma SFcompare_antisym (a b : spec_float) :
  SFcompare b a = option_map CompOpp (SFcompare a b).
Proof.
  destruct a as [sa|sa| |sa ma ea], b as [sb|sb| |sb mb eb]; simpl;
    try reflexivity; try (destruct sa; reflexivity);
    try (destruct sb; reflexivity);
    try (destruct sa, sb; reflexivity).
  destruct sa, sb; simpl; try reflexivity;
    rewrite (Z.compare_antisym ea eb);
    destruct (ea ?= eb)%Z; simpl; try reflexivity;
    rewrite (Pos.compare_cont_antisym ma mb Eq); simpl;
    try rewrite CompOpp_involutive; reflexivity.
Qed.

Lemma SFcompare_refl (a : spec_float) :
  a <> S754_nan -> SFcompare a a = Some Eq.
Proof.
  destruct a as [sa|sa| |sa ma ea]; simpl; intros Ha;
    try reflexivity; try congruence.
  - destruct sa; reflexivity.
  - destruct sa; rewrite Z.compare_refl;
      change (Pos.compare_cont Eq ma ma) with (Pos.compare ma ma);
      rewrite Pos.compare_refl; reflexivity.
Qed.

Lemma is_nan_spec (a : float) :
  is_nan a = false <-> Prim2SF a <> S754_nan.
Proof.
  unfold is_nan. rewrite eqb_spec. unfold SFeqb. split.
  - intros H E. rewrite E in H. discriminate.
  - intros H. rewrite (SFcompare_refl _ H). reflexivity.
Qed.

(** Rewrites every float comparison of the goal into [SFcompare] of the
    two specifications, oriented as [SFcompare a b]. *)
Ltac float_compare a b :=
  rewrite ?ltb_spec, ?leb_spec, ?eqb_spec in *;
  unfold SFltb, SFleb, SFeqb in *;
  rewrite ?(SFcompare_antisym (Prim2SF a) (Prim2SF b)) in *;
  destruct (SFcompare (Prim2SF a) (Prim2SF b)) as [[ | | ]|];
  simpl in *; try congruence; auto.

Lemma ltb_leb (a b : float) : (a <? b) = true -> (a <=? b) = true.
Proof. float_compare a b. Qed.

Lemma ltb_not_leb (a b : float) : (a <? b) = true -> (b <=? a) = false.
Proof. float_compare a b. Qed.

Lemma leb_not_ltb (a b : float) : (a <=? b) = true -> (b <? a) = false.
Proof. float_compare a b. Qed.

Lemma ltb_not_nan_l (a b : float) : (a <? b) = true -> is_nan a = false.
Proof.
  intros H. apply is_nan_spec. intros E.
  rewrite ltb_spec, E in H. discriminate.
Qed.

Lemma ltb_not_nan_r (a b : float) : (a <? b) = true -> is_nan b = false.
Proof.
  intros H. apply is_nan_spec. intros E.
  rewrite ltb_spec, E in H. unfold SFltb in H.
  destruct (Prim2SF a); discriminate.
Qed.

Lemma leb_refl (a : float) : is_nan a = false -> (a <=? a) = true.
Proof.
  intros H. apply is_nan_spec in H.
  rewrite leb_spec. unfold SFleb. rewrite (SFcompare_refl _ H). reflexivity.
Qed.

Lemma SFcompare_total (a b : spec_float) :
  a <> S754_nan -> b <> S754_nan -> exists c, SFcompare a b = Some c.
Proof.
  destruct a, b; simpl; intros Ha Hb; try congruence; eexists; reflexivity.
Qed.

Lemma not_ltb_leb (a b : float) :
  is_nan a = false -> is_nan b = false -> (a <? b) = false -> (b <=? a) = true.
Proof.
  intros Ha Hb. apply is_nan_spec in Ha, Hb.
  destruct (SFcompare_total _ _ Ha Hb) as [c Hc].
  rewrite ltb_spec, leb_spec. unfold SFltb, SFleb.
  rewrite (SFcompare_antisym (Prim2SF a) (Prim2SF b)), Hc.
  destruct c; simpl; congruence.
Qed.

Lemma abs_opp (m : float) : abs (- m) = abs m.
Proof.
  apply Prim2SF_inj. rewrite !abs_spec, opp_spec.
  destruct (Prim2SF m); reflexivity.
Qed.

Lemma is_nan_true (a : float) : is_nan a = true -> Prim2SF a = S754_nan.
Proof.
  intros H. destruct (Prim2SF a) eqn:E; try reflexivity;
    assert (N : is_nan a = false) by (apply is_nan_spec; rewrite E; discriminate);
    congruence.
Qed.

Lemma nan_not_ltb_l (a b : float) : is_nan a = true -> (a <? b) = false.
Proof. intros H. rewrite ltb_spec, (is_nan_true _ H). reflexivity. Qed.

Lemma nan_not_ltb_r (a b : float) : is_nan b = true -> (a <? b) = false.
Proof.
  intros H. rewrite ltb_spec, (is_nan_true _ H). unfold SFltb.
  destruct (Prim2SF a); reflexivity.
Qed.

Lemma ltb_asym (a b : float) : (a <? b) = true -> (b <? a) = false.
Proof. float_compare a b. Qed.

Lemma Prim2SF_zero : Prim2SF 0 = S754_zero false.
Proof. reflexivity. Qed.

Lemma Prim2SF_one : Prim2SF 1 = S754_finite false 4503599627370496 (-52).
Proof. reflexivity. Qed.

(** A number at least [|m|] is not negative. *)
Lemma abs_leb_not_neg (m a : float) : (abs m <=? a) = true -> (a <? 0) = false.
Proof.
  rewrite leb_spec, ltb_spec, abs_spec, Prim2SF_zero. unfold SFleb, SFltb.
  destruct (Prim2SF m) as [sm|sm| |sm mm em], (Prim2SF a) as [sa|sa| |sa ma ea];
    simpl; try congruence; try (destruct sa; congruence).
Qed.

(** A number at least a positive finite one is not [<= 0]. *)
Lemma leb_positive_not_leb_zero (c a : float) (mc : positive) (ec : Z) :
  Prim2SF c = S754_finite false mc ec ->
  (c <=? a) = true -> (a <=? 0) = false.
Proof.
  intros Hc. rewrite !leb_spec, Hc, Prim2SF_zero. unfold SFleb.
  destruct (Prim2SF a) as [sa|sa| |sa ma ea]; simpl;
    try congruence; try (destruct sa; congruence).
Qed.

Lemma _FOLDNORM_SD_MIN_spec :
  Prim2SF _FOLDNORM_SD_MIN = S754_finite false 5070602400912918 (-102).
Proof. reflexivity. Qed.

(** ** Clipping into [[0, 1]] *)

Lemma np_clip_unit_cases (r : float) :
  (is_nan r = true /\ np_clip r 0 1 = r) \/
  (is_nan r = false /\ (0 <? r) = true /\ (r <? 1) = true /\ np_clip r 0 1 = r) \/
  (is_nan r = false /\ np_clip r 0 1 = 1) \/
  (is_nan r = false /\ np_clip r 0 1 = 0).
Proof.
  unfold np_clip. destruct (is_nan r) eqn:Hn; simpl.
  - left. split; [reflexivity|]. rewrite Hn. reflexivity.
  - right. destruct (0 <? r) eqn:H0.
    + rewrite Hn. simpl. destruct (r <? 1) eqn:H1; auto.
    + right. right. split; reflexivity.
Qed.

Lemma np_clip_unit_not_outside (r : float) :
  (np_clip r 0 1 <? 0) = false /\ (1 <? np_clip r 0 1) = false.
Proof.
  destruct (np_clip_unit_cases r) as [[Hn E]|[[Hn [H0 [H1 E]]]|[[Hn E]|[Hn E]]]];
    rewrite E.
  - split; [apply nan_not_ltb_l | apply nan_not_ltb_r]; exact Hn.
  - split; apply ltb_asym; assumption.
  - split; reflexivity.
  - split; reflexivity.
Qed.

Lemma np_clip_unit_inside (r : float) :
  is_nan r = false ->
  (0 <=? np_clip r 0 1) = true /\ (np_clip r 0 1 <=? 1) = true.
Proof.
  intros Hr.
  destruct (np_clip_unit_cases r) as [[Hn E]|[[Hn [H0 [H1 E]]]|[[Hn E]|[Hn E]]]];
    rewrite E.
  - congruence.
  - split; apply ltb_leb; assumption.
  - split; reflexivity.
  - split; reflexivity.
Qed.

Lemma leb_numbers (a b : float) :
  (a <=? b) = true -> is_nan a = false /\ is_nan b = false.
Proof.
  intros H. split; apply is_nan_spec; intros E; rewrite leb_spec, E in H.
  - discriminate.
  - unfold SFleb in H. destruct (Prim2SF a); discriminate.
Qed.

Lemma SFleb_positive_ltb_zero (c : spec_float) (m1 : positive) (e1 : Z) :
  SFleb (S754_finite false m1 e1) c = true -> SFltb (S754_zero false) c = true.
Proof.
  unfold SFleb, SFltb.
  destruct c as [[ | ]|[ | ]| |[ | ] m e]; simpl; try congruence;
    intros _; reflexivity.
Qed.

Lemma one_leb_zero_ltb (r : float) : (1 <=? r) = true -> (0 <? r) = true.
Proof.
  rewrite leb_spec, ltb_spec, Prim2SF_zero, Prim2SF_one.
  apply SFleb_positive_ltb_zero.
Qed.

(** What [np.clip(r, 0.0, 1.0)] is, case by case. *)
Lemma np_clip_unit_pinned (r : float) :
  ((0 <? r) = true -> (r <? 1) = true -> np_clip r 0 1 = r) /\
  ((r <=? 0) = true -> np_clip r 0 1 = 0) /\
  ((1 <=? r) = true -> np_clip r 0 1 = 1) /\
  (is_nan r = true -> np_clip r 0 1 = r).
Proof.
  unfold np_clip. repeat split.
  - intros H0 H1. rewrite H0, orb_true_r, H1, orb_true_r. reflexivity.
  - intros H. destruct (leb_numbers _ _ H) as [Hn _].
    rewrite Hn, (leb_not_ltb _ _ H). reflexivity.
  - intros H. destruct (leb_numbers _ _ H) as [_ Hn].
    rewrite Hn, (one_leb_zero_ltb _ H). simpl.
    rewrite Hn, (leb_not_ltb _ _ H). reflexivity.
  - intros Hn. rewrite Hn. simpl. rewrite Hn. reflexivity.
Qed.

(** ** Validation helpers *)

Lemma _validate_probability_ok (p : float) (name : string) :
  (0 <? p) = true -> (p <? 1) = true -> _validate_probability p name = Ok tt.
Proof. intros H0 H1. unfold _validate_probability. rewrite H0, H1. reflexivity. Qed.

Lemma _validate_positive_ok (a : float) (name : string) :
  (0 <? a) = true -> _validate_positive a name = Ok tt.
Proof.
  intros H. unfold _validate_positive. rewrite (ltb_not_leb _ _ H). reflexivity.
Qed.

Lemma _validate_non_negative_ok (a : float) (name : string) :
  (a <? 0) = false -> _validate_non_negative a name = Ok tt.
Proof. intros H. unfold _validate_non_negative. rewrite H. reflexivity. Qed.

Ltac split_ifs :=
  repeat match goal with
         | |- context [if ?b then _ else _] => destruct b eqn:?
         end.

(** ** Folded normal: sign symmetry *)

Lemma qfoldnorm_opp
    (norm_ppf : float -> float) (foldnorm_ppf : float -> float -> float -> float -> float)
    (p m s : float) :
  qfoldnorm norm_ppf foldnorm_ppf p (- m) s = qfoldnorm norm_ppf foldnorm_ppf p m s.
Proof. unfold qfoldnorm. rewrite abs_opp. reflexivity. Qed.

Lemma qfoldnorm_returns
    (norm_ppf : float -> float) (foldnorm_ppf : float -> float -> float -> float -> float)
    (p m s : float) :
  (0 <? p) = true -> (p <? 1) = true -> (0 <? s) = true ->
  exists v, qfoldnorm norm_ppf foldnorm_ppf p m s = Ok v.
Proof.
  intros H0 H1 Hs. unfold qfoldnorm.
  rewrite (_validate_probability_ok _ _ H0 H1), (_validate_positive_ok _ _ Hs).
  simpl. split_ifs; eexists; reflexivity.
Qed.

(** C3. For every probability [p] in (0,1), location [m] and scale [s > 0],
    [qfoldnorm p m s] and [qfoldnorm p (-m) s] return the same float, whichever
    branch (degenerate scale, extreme shape, standard) is taken: only [abs m]
    enters the computation. "The same float" is equality of the values
    returned (a NaN answer of scipy is the same NaN on both sides). *)
Theorem qfoldnorm_sign_symmetry :
  forall (norm_ppf : float -> float)
         (foldnorm_ppf : float -> float -> float -> float -> float)
         (p m s : float),
    (0 <? p) = true -> (p <? 1) = true -> (0 <? s) = true ->
    exists v,
      qfoldnorm norm_ppf foldnorm_ppf p m s = Ok v /\
      qfoldnorm norm_ppf foldnorm_ppf p (- m) s = Ok v.
Proof.
  intros norm_ppf foldnorm_ppf p m s H0 H1 Hs.
  destruct (qfoldnorm_returns norm_ppf foldnorm_ppf p m s H0 H1 Hs) as [v Hv].
  exists v. split; [exact Hv|]. rewrite qfoldnorm_opp. exact Hv.
Qed.

Lemma qfoldnorm_sign_symmetry_witness :
  exists v,
    qfoldnorm plain_ppf plain_foldnorm_ppf 0.5 0.2 0.1 = Ok v /\
    qfoldnorm plain_ppf plain_foldnorm_ppf 0.5 (- 0.2) 0.1 = Ok v.
Proof.
  apply (qfoldnorm_sign_symmetry plain_ppf plain_foldnorm_ppf 0.5 0.2 0.1);
    reflexivity.
Defined.

(** ** Folded normal: the degenerate scale *)

(** C5. For every scale [s] with [0 < s < 1e-15]: [qfoldnorm p m s] returns
    [abs m] for every [p] in (0,1); [pfoldnorm x m s] returns [1.0] when
    [x >= abs m] and [0.0] when [0 <= x < abs m]. *)
Theorem foldnorm_degenerate_scale :
  forall (norm_cdf norm_ppf : float -> float)
         (foldnorm_ppf : float -> float -> float -> float -> float)
         (p x m s : float),
    (0 <? s) = true -> (s <? 1e-15) = true ->
    ((0 <? p) = true -> (p <? 1) = true ->
       qfoldnorm norm_ppf foldnorm_ppf p m s = Ok (abs m)) /\
    ((abs m <=? x) = true -> pfoldnorm norm_cdf x m s = Ok 1) /\
    ((0 <=? x) = true -> (x <? abs m) = true -> pfoldnorm norm_cdf x m s = Ok 0).
Proof.
  intros norm_cdf norm_ppf foldnorm_ppf p x m s Hs Hmin.
  change 1e-15 with _FOLDNORM_SD_MIN in Hmin.
  repeat split.
  - intros H0 H1. unfold qfoldnorm.
    rewrite (_validate_probability_ok _ _ H0 H1), (_validate_positive_ok _ _ Hs).
    simpl. rewrite Hmin. reflexivity.
  - intros Hx. unfold pfoldnorm.
    rewrite (_validate_non_negative_ok _ _ (abs_leb_not_neg _ _ Hx)),
            (_validate_positive_ok _ _ Hs).
    simpl. rewrite Hmin, Hx. reflexivity.
  - intros Hx Hlt. unfold pfoldnorm.
    rewrite (_validate_non_negative_ok _ _ (leb_not_ltb _ _ Hx)),
            (_validate_positive_ok _ _ Hs).
    simpl. rewrite Hmin, (ltb_not_leb _ _ Hlt). reflexivity.
Qed.

Lemma foldnorm_degenerate_scale_witness :
  qfoldnorm plain_ppf plain_foldnorm_ppf 0.5 0.2 1e-16 = Ok (abs 0.2) /\
  pfoldnorm step_cdf 0.2 0.2 1e-16 = Ok 1 /\
  pfoldnorm step_cdf 0.1 0.2 1e-16 = Ok 0.
Proof.
  split; [|split].
  - apply (foldnorm_degenerate_scale step_cdf plain_ppf plain_foldnorm_ppf
             0.5 0.2 0.2 1e-16); reflexivity.
  - apply (foldnorm_degenerate_scale step_cdf plain_ppf plain_foldnorm_ppf
             0.5 0.2 0.2 1e-16); reflexivity.
  - apply (foldnorm_degenerate_scale step_cdf plain_ppf plain_foldnorm_ppf
             0.5 0.1 0.2 1e-16); reflexivity.
Defined.

(** ** Additions and subtractions of finite numbers are numbers *)

Section NotNaN.

Variables prec emax : Z.

Lemma shr_1_nonneg (mrs : shr_record) :
  (0 <= shr_m mrs)%Z -> (0 <= shr_m (shr_1 mrs))%Z.
Proof.
  destruct mrs as [m r s]. destruct m as [|q|q]; simpl; intros H;
    try destruct q; simpl; lia.
Qed.

Lemma iter_shr_1_nonneg (n : positive) (mrs : shr_record) :
  (0 <= shr_m mrs)%Z -> (0 <= shr_m (iter_pos shr_1 n mrs))%Z.
Proof.
  revert mrs. induction n as [n IH|n IH|]; intros mrs H; simpl.
  - apply IH, IH, shr_1_nonneg, H.
  - apply IH, IH, H.
  - apply shr_1_nonneg, H.
Qed.

Lemma shr_fexp_nonneg (m e : Z) (l : location) :
  (0 <= m)%Z -> (0 <= shr_m (fst (shr_fexp prec emax m e l)))%Z.
Proof.
  intros H. unfold shr_fexp, shr.
  assert (H0 : (0 <= shr_m (shr_record_of_loc m l))%Z)
    by (destruct l as [|[ | | ]]; exact H).
  destruct (fexp prec emax (Zdigits2 m + e) - e)%Z; simpl; auto.
  apply iter_shr_1_nonneg, H0.
Qed.

Lemma round_nearest_even_nonneg (mx : Z) (lx : location) :
  (0 <= mx)%Z -> (0 <= round_nearest_even mx lx)%Z.
Proof.
  intros H. destruct lx as [|[ | | ]]; simpl; try destruct (Z.even mx); lia.
Qed.

Lemma binary_round_aux_not_nan (sx : bool) (mx ex : Z) (lx : location) :
  (0 <= mx)%Z -> binary_round_aux prec emax sx mx ex lx <> S754_nan.
Proof.
  intros H. unfold binary_round_aux.
  pose proof (shr_fexp_nonneg mx ex lx H) as H1.
  destruct (shr_fexp prec emax mx ex lx) as [mrs' e']. simpl in H1.
  pose proof (shr_fexp_nonneg _ e' loc_Exact
                (round_nearest_even_nonneg _ (loc_of_shr_record mrs') H1)) as H2.
  destruct (shr_fexp prec emax _ e' loc_Exact) as [mrs'' e'']. simpl in H2.
  destruct (shr_m mrs''); [discriminate| |lia].
  destruct (Z.leb e'' (emax - prec)); discriminate.
Qed.

Lemma binary_normalize_not_nan (m e : Z) (szero : bool) :
  binary_normalize prec emax m e szero <> S754_nan.
Proof.
  destruct m as [|q|q]; simpl; [discriminate| |];
    unfold binary_round; destruct (shl_align q e _) as [mz ez];
    apply binary_round_aux_not_nan; lia.
Qed.

Lemma SFadd_not_nan (a b : spec_float) :
  SFfinite a -> SFfinite b -> SFadd prec emax a b <> S754_nan.
Proof.
  destruct a as [sa|sa| |sa ma ea], b as [sb|sb| |sb mb eb]; simpl;
    intros Ha Hb; try contradiction; try discriminate.
  - destruct sa, sb; discriminate.
  - apply binary_normalize_not_nan.
Qed.

Lemma SFsub_not_nan (a b : spec_float) :
  a <> S754_nan -> SFfinite b -> SFsub prec emax a b <> S754_nan.
Proof.
  destruct a as [sa|sa| |sa ma ea], b as [sb|sb| |sb mb eb]; simpl;
    intros Ha Hb; try contradiction; try discriminate; try congruence.
  - destruct sa, sb; discriminate.
  - apply binary_normalize_not_nan.
Qed.

End NotNaN.

Lemma SFin_range_finite (c : spec_float) (m1 : positive) (e1 : Z) :
  SFleb (S754_zero false) c = true ->
  SFleb c (S754_finite false m1 e1) = true -> SFfinite c.
Proof.
  unfold SFleb.
  destruct c as [[ | ]|[ | ]| |[ | ] m e]; simpl;
    try (intros; exact I); congruence.
Qed.

Lemma in_unit_finite (c : float) :
  (0 <=? c) = true -> (c <=? 1) = true -> SFfinite (Prim2SF c).
Proof.
  rewrite !leb_spec, Prim2SF_zero, Prim2SF_one. apply SFin_range_finite.
Qed.

Lemma two_term_is_number (Phi : float -> float) (a m s : float) :
  (0 <=? Phi ((a - abs m) / s)) = true -> (Phi ((a - abs m) / s) <=? 1) = true ->
  (0 <=? Phi ((a + abs m) / s)) = true -> (Phi ((a + abs m) / s) <=? 1) = true ->
  is_nan (two_term Phi a m s) = false.
Proof.
  intros H1 H2 H3 H4. apply is_nan_spec. unfold two_term.
  rewrite sub_spec, add_spec.
  apply SFsub_not_nan.
  - apply SFadd_not_nan; apply in_unit_finite; assumption.
  - rewrite Prim2SF_one. exact I.
Qed.

(** ** Folded normal: the two-term formula *)

(** C4, as the code has it. For every [x >= 0], location [m] and scale
    [s >= 1e-15], [pfoldnorm x m s] returns the two-term formula
    [r = Phi((x - |m|)/s) + Phi((x + |m|)/s) - 1] clipped by [np.clip]:
    [r] itself when [0 < r < 1], [0.0] when [r <= 0], [1.0] when [r >= 1],
    and [r] again when it is NaN. The value returned is never below 0 and
    never above 1; it lies in [[0, 1]] whenever the formula yields a number,
    and it does so whenever [norm.cdf] answers with probabilities at the two
    arguments. *)
Theorem pfoldnorm_two_term_clipped :
  forall (norm_cdf : float -> float) (x m s : float),
    (0 <=? x) = true -> (1e-15 <=? s) = true ->
    exists v,
      pfoldnorm norm_cdf x m s = Ok v /\
      v = np_clip (two_term norm_cdf x m s) 0 1 /\
      ((0 <? two_term norm_cdf x m s) = true ->
       (two_term norm_cdf x m s <? 1) = true -> v = two_term norm_cdf x m s) /\
      ((two_term norm_cdf x m s <=? 0) = true -> v = 0) /\
      ((1 <=? two_term norm_cdf x m s) = true -> v = 1) /\
      (is_nan (two_term norm_cdf x m s) = true ->
       v = two_term norm_cdf x m s /\ is_nan v = true) /\
      (v <? 0) = false /\ (1 <? v) = false /\
      (is_nan (two_term norm_cdf x m s) = false ->
       (0 <=? v) = true /\ (v <=? 1) = true) /\
      (cdf_values_in_unit norm_cdf x m s ->
       (0 <=? v) = true /\ (v <=? 1) = true).
Proof.
  intros norm_cdf x m s Hx Hs.
  change 1e-15 with _FOLDNORM_SD_MIN in Hs.
  exists (np_clip (two_term norm_cdf x m s) 0 1). split; [|split; [reflexivity|]].
  - unfold pfoldnorm, _validate_positive.
    rewrite (_validate_non_negative_ok _ _ (leb_not_ltb _ _ Hx)).
    rewrite (leb_positive_not_leb_zero _ _ _ _ _FOLDNORM_SD_MIN_spec Hs).
    simpl. rewrite (leb_not_ltb _ _ Hs). reflexivity.
  - destruct (np_clip_unit_pinned (two_term norm_cdf x m s))
      as [Hin [Hbelow [Habove Hnan]]].
    split; [exact Hin|]. split; [exact Hbelow|]. split; [exact Habove|].
    split; [intros Hn; rewrite (Hnan Hn); split; [reflexivity|exact Hn]|].
    destruct (np_clip_unit_not_outside (two_term norm_cdf x m s)) as [Hlo Hhi].
    split; [exact Hlo|]. split; [exact Hhi|]. split.
    + apply np_clip_unit_inside.
    + intros [[H1 H2] [H3 H4]]. apply np_clip_unit_inside.
      apply two_term_is_number; assumption.
Qed.

Lemma step_cdf_in_unit (z : float) :
  (0 <=? step_cdf z) = true /\ (step_cdf z <=? 1) = true.
Proof. unfold step_cdf. destruct (z <? 0); split; reflexivity. Qed.

Lemma pfoldnorm_two_term_clipped_witness :
  exists v,
    pfoldnorm step_cdf 0.15 0.2 0.05 = Ok v /\
    v = np_clip (two_term step_cdf 0.15 0.2 0.05) 0 1 /\
    (0 <=? v) = true /\ (v <=? 1) = true.
Proof.
  destruct (pfoldnorm_two_term_clipped step_cdf 0.15 0.2 0.05
              eq_refl eq_refl)
    as [v [Hv [Hclip [_ [_ [_ [_ [_ [_ [_ Hunit]]]]]]]]]].
  exists v. split; [exact Hv|]. split; [exact Hclip|].
  apply Hunit. split; apply step_cdf_in_unit.
Defined.

(** C4 as stated fails where the formula is not a number: with a NaN
    location, or with [x] and the location both infinite, [norm.cdf] is
    asked at NaN, the formula is NaN, [np.clip] hands it through, and the
    value returned is NaN, which does not lie in [[0, 1]]. *)
Lemma pfoldnorm_nan_not_in_unit :
  ((0 <=? 1) = true /\ (1e-15 <=? 1) = true /\
   pfoldnorm step_cdf_nan 1 nan 1 = Ok nan) /\
  ((0 <=? infinity) = true /\
   pfoldnorm step_cdf_nan infinity infinity 1 = Ok nan) /\
  (0 <=? nan) = false /\ (nan <=? 1) = false.
Proof. repeat split. Qed.

(** ** Folded normal: invalid arguments *)

Lemma qfoldnorm_cases
    (norm_ppf : float -> float) (foldnorm_ppf : float -> float -> float -> float -> float)
    (p m s : float) :
  ((0 <? p) && (p <? 1) = false /\
   qfoldnorm norm_ppf foldnorm_ppf p m s =
     Raise (ValueError (must_be_strictly_between_0_and_1 "p" p))) \/
  ((0 <? p) && (p <? 1) = true /\ (s <=? 0) = true /\
   qfoldnorm norm_ppf foldnorm_ppf p m s =
     Raise (ValueError (must_be_strictly_positive "sd" s))) \/
  ((0 <? p) && (p <? 1) = true /\ (s <=? 0) = false /\
   exists v, qfoldnorm norm_ppf foldnorm_ppf p m s = Ok v).
Proof.
  unfold qfoldnorm, _validate_probability, _validate_positive.
  destruct ((0 <? p) && (p <? 1)); simpl; [|left; split; reflexivity].
  right. destruct (s <=? 0); simpl; [left; repeat split|].
  right. repeat split. split_ifs; eexists; reflexivity.
Qed.

Lemma pfoldnorm_cases (norm_cdf : float -> float) (x m s : float) :
  ((x <? 0) = true /\
   pfoldnorm norm_cdf x m s = Raise (ValueError (must_be_non_negative "x" x))) \/
  ((x <? 0) = false /\ (s <=? 0) = true /\
   pfoldnorm norm_cdf x m s = Raise (ValueError (must_be_strictly_positive "sd" s))) \/
  ((x <? 0) = false /\ (s <=? 0) = false /\
   exists v, pfoldnorm norm_cdf x m s = Ok v).
Proof.
  unfold pfoldnorm, _validate_non_negative, _validate_positive.
  destruct (x <? 0); simpl; [left; split; reflexivity|].
  right. destruct (s <=? 0); simpl; [left; repeat split|].
  right. repeat split. split_ifs; eexists; reflexivity.
Qed.

(** C6. [qfoldnorm] raises exactly when [p] is not strictly between 0 and 1
    or [sd <= 0], [pfoldnorm] exactly when [x < 0] or [sd <= 0]. The error is
    of the specification's InvalidArgument kind and is raised before anything
    is computed: it is the same whatever scipy's functions and the location
    are, and the call yields the error alone. *)
Theorem foldnorm_invalid_argument :
  forall (norm_cdf norm_ppf : float -> float)
         (foldnorm_ppf : float -> float -> float -> float -> float)
         (p x m s : float),
    ((exists e, qfoldnorm norm_ppf foldnorm_ppf p m s = Raise e) <->
     ((0 <? p) && (p <? 1) = false \/ (s <=? 0) = true)) /\
    (forall e, qfoldnorm norm_ppf foldnorm_ppf p m s = Raise e ->
       InvalidArgument e /\
       forall norm_ppf' foldnorm_ppf' m',
         qfoldnorm norm_ppf' foldnorm_ppf' p m' s = Raise e) /\
    ((exists e, pfoldnorm norm_cdf x m s = Raise e) <->
     ((x <? 0) = true \/ (s <=? 0) = true)) /\
    (forall e, pfoldnorm norm_cdf x m s = Raise e ->
       InvalidArgument e /\
       forall norm_cdf' m', pfoldnorm norm_cdf' x m' s = Raise e).
Proof.
  intros norm_cdf norm_ppf foldnorm_ppf p x m s.
  split; [|split; [|split]].
  - destruct (qfoldnorm_cases norm_ppf foldnorm_ppf p m s)
      as [[Hp E]|[[Hp [Hs E]]|[Hp [Hs [v E]]]]]; rewrite E; split.
    + auto.
    + intros _. eexists; reflexivity.
    + auto.
    + intros _. eexists; reflexivity.
    + intros [e He]. discriminate.
    + intros [H|H]; congruence.
  - intros e He.
    destruct (qfoldnorm_cases norm_ppf foldnorm_ppf p m s)
      as [[Hp E]|[[Hp [Hs E]]|[Hp [Hs [v E]]]]]; rewrite E in He;
      try discriminate; injection He as <-; (split; [exact I|]);
      intros norm_ppf' foldnorm_ppf' m'.
    + destruct (qfoldnorm_cases norm_ppf' foldnorm_ppf' p m' s)
        as [[Hp' E']|[[Hp' [Hs' E']]|[Hp' [Hs' [v' E']]]]]; congruence.
    + destruct (qfoldnorm_cases norm_ppf' foldnorm_ppf' p m' s)
        as [[Hp' E']|[[Hp' [Hs' E']]|[Hp' [Hs' [v' E']]]]]; congruence.
  - destruct (pfoldnorm_cases norm_cdf x m s)
      as [[Hx E]|[[Hx [Hs E]]|[Hx [Hs [v E]]]]]; rewrite E; split.
    + auto.
    + intros _. eexists; reflexivity.
    + auto.
    + intros _. eexists; reflexivity.
    + intros [e He]. discriminate.
    + intros [H|H]; congruence.
  - intros e He.
    destruct (pfoldnorm_cases norm_cdf x m s)
      as [[Hx E]|[[Hx [Hs E]]|[Hx [Hs [v E]]]]]; rewrite E in He;
      try discriminate; injection He as <-; (split; [exact I|]);
      intros norm_cdf' m'.
    + destruct (pfoldnorm_cases norm_cdf' x m' s)
        as [[Hx' E']|[[Hx' [Hs' E']]|[Hx' [Hs' [v' E']]]]]; congruence.
    + destruct (pfoldnorm_cases norm_cdf' x m' s)
        as [[Hx' E']|[[Hx' [Hs' E']]|[Hx' [Hs' [v' E']]]]]; congruence.
Qed.

(** ** Constrained OLS: the fast path *)

Section ConstrainedOLSFacts.

Variable np : numpy.

Variable minimize :
  (list float -> result float) -> list float ->
  (list float -> result float) -> cobyla_options ->
  result (OptimizeResult (list float)).

Lemma constrained_ols_returns_start
    (Y : list float) (X : list (list float)) (delta : float) (k : Z)
    (start_val : list float) (muc : option float) (m : float) :
  (1 <= k)%Z -> (0 <? delta) = true ->
  fast_path_value start_val k muc = Ok m -> (delta <=? m) = true ->
  constrained_ols np minimize Y X delta k start_val muc = ([], Ok (start_val, true)).
Proof.
  intros Hk Hd Hm Hge. unfold constrained_ols.
  rewrite (_validate_positive_ok _ _ Hd).
  destruct (k <? 1)%Z eqn:Hk1; [apply Z.ltb_lt in Hk1; lia|].
  unfold fast_path_value in Hm.
  destruct muc as [given|].
  - injection Hm as ->. unfold lbind, lift, ret. simpl. rewrite Hge. reflexivity.
  - rewrite Hm. unfold lbind, lift, ret. simpl. rewrite Hge. reflexivity.
Qed.

Lemma constrained_ols_runs_optimizer
    (Y : list float) (X : list (list float)) (delta : float) (k : Z)
    (start_val : list float) (muc : option float) (m : float) :
  (1 <= k)%Z -> (0 <? delta) = true ->
  fast_path_value start_val k muc = Ok m -> (delta <=? m) = false ->
  exists evs r,
    constrained_ols np minimize Y X delta k start_val muc =
      (ev_minimize start_val first_run_options :: evs, r).
Proof.
  intros Hk Hd Hm Hlt. unfold constrained_ols.
  rewrite (_validate_positive_ok _ _ Hd).
  destruct (k <? 1)%Z eqn:Hk1; [apply Z.ltb_lt in Hk1; lia|].
  unfold fast_path_value in Hm.
  assert (E : (match muc with
               | Some given => ret given
               | None => lift (np_max (np_abs (slice_to start_val k)))
               end) = ([], Ok m)).
  { destruct muc as [given|]; [injection Hm as ->; reflexivity|].
    rewrite Hm. reflexivity. }
  rewrite E. unfold lbind at 1 2 3. simpl. rewrite Hlt.
  unfold run_minimize, lbind, tell, lift. simpl.
  destruct (minimize _ _ _ _) as [r1|e1]; simpl; [|eexists; eexists; reflexivity].
  destruct (negb (success r1)); simpl.
  - destruct (minimize _ _ _ _) as [r2|e2]; simpl; eexists; eexists; reflexivity.
  - eexists; eexists; reflexivity.
Qed.

End ConstrainedOLSFacts.

(** C1. For every [Y], [X], [start_val], placebo count [k >= 1] and margin
    [delta > 0] with [max(|start_val[0:k]|) >= delta], [constrained_ols]
    returns the starting vector itself with convergence flag true, and its
    log of events is empty: the optimizer is never run. *)
Theorem constrained_ols_fast_path :
  forall (np : numpy) minimize (Y : list float) (X : list (list float))
         (start_val : list float) (k : Z) (delta m : float),
    (1 <= k)%Z -> (0 <? delta) = true ->
    np_max (np_abs (slice_to start_val k)) = Ok m -> (delta <=? m) = true ->
    constrained_ols np minimize Y X delta k start_val None
      = ([], Ok (start_val, true)).
Proof.
  intros np minimize Y X start_val k delta m Hk Hd Hm Hge.
  apply (constrained_ols_returns_start np minimize Y X delta k start_val None m);
    assumption.
Qed.

Lemma constrained_ols_fast_path_witness :
  constrained_ols index_order stay_put [1; 2] [[1; 0; 0; 0; 0]; [0; 1; 0; 0; 0]]
      0.05 3 [0.1; 0.2; 0.3; 0.4; 0.5] None
    = ([], Ok ([0.1; 0.2; 0.3; 0.4; 0.5], true)).
Proof.
  apply (constrained_ols_fast_path index_order stay_put [1; 2]
           [[1; 0; 0; 0; 0]; [0; 1; 0; 0; 0]]
           [0.1; 0.2; 0.3; 0.4; 0.5] 3 0.05 0.3);
    [lia | reflexivity | reflexivity | reflexivity].
Defined.

(** C9. When the caller supplies [max_unconstr_coef], the fast-path decision
    rests on the supplied value alone: with a supplied value [>= delta] the
    call returns [start_val] unchanged with convergence true and runs no
    optimizer, also when [max(|start_val[0:k]|) < delta], so that the vector
    returned violates [max(|beta[0:k]|) >= delta]; the same call without the
    argument runs the optimizer. *)
Theorem constrained_ols_trusts_supplied_max :
  forall (np : numpy) minimize (Y : list float) (X : list (list float))
         (start_val : list float) (k : Z) (delta given : float),
    (1 <= k)%Z -> (0 <? delta) = true -> (delta <=? given) = true ->
    constrained_ols np minimize Y X delta k start_val (Some given)
      = ([], Ok (start_val, true)) /\
    forall m,
      np_max (np_abs (slice_to start_val k)) = Ok m -> (m <? delta) = true ->
      (delta <=? m) = false /\
      exists evs r,
        constrained_ols np minimize Y X delta k start_val None =
          (ev_minimize start_val first_run_options :: evs, r).
Proof.
  intros np minimize Y X start_val k delta given Hk Hd Hge. split.
  - apply (constrained_ols_returns_start np minimize Y X delta k start_val
             (Some given) given); auto.
  - intros m Hm Hlt. split; [apply ltb_not_leb; exact Hlt|].
    apply (constrained_ols_runs_optimizer np minimize Y X delta k start_val None m);
      auto using ltb_not_leb.
Qed.

Lemma constrained_ols_trusts_supplied_max_witness :
  constrained_ols index_order stay_put [1; 2] [[1; 0; 0]; [0; 1; 0]] 0.5 2
      [0.05; 0.03; 0.4] (Some 0.7)
    = ([], Ok ([0.05; 0.03; 0.4], true)) /\
  np_max (np_abs (slice_to [0.05; 0.03; 0.4] 2)) = Ok 0.05 /\
  (0.5 <=? 0.05) = false.
Proof.
  split; [|split].
  - apply (constrained_ols_trusts_supplied_max index_order stay_put [1; 2]
             [[1; 0; 0]; [0; 1; 0]] [0.05; 0.03; 0.4] 2 0.5 0.7);
      [lia | reflexivity | reflexivity].
  - reflexivity.
  - apply (constrained_ols_trusts_supplied_max index_order stay_put [1; 2]
             [[1; 0; 0]; [0; 1; 0]] [0.05; 0.03; 0.4] 2 0.5 0.7)
      with (m := 0.05); [lia | reflexivity | reflexivity | reflexivity | reflexivity].
Defined.

(** ** Constrained OLS: a placebo count above the number of coefficients *)

Lemma slice_to_all {A : Type} (a : list A) (k : Z) :
  (len a <= k)%Z -> slice_to a k = a.
Proof.
  intros H. unfold slice_to, len in *. apply firstn_all2. lia.
Qed.

Lemma np_max_nonempty (a : list float) :
  a <> [] -> exists m, np_max a = Ok m.
Proof. destruct a as [|a0 rest]; [congruence|]. intros _. eexists; reflexivity. Qed.

Lemma np_abs_length (a : list float) : length (np_abs a) = length a.
Proof. apply length_map. Qed.

Lemma matmul_ok (np : numpy) (N p : nat) (X : list (list float)) (v : list float) :
  is_matrix N p X -> length v = p ->
  matmul np X v = Ok (map (matvec_entry np X v) (seq 0 N)).
Proof.
  intros [[HN Hne] Hrows] Hv. unfold matmul.
  destruct X as [|row X']; [congruence|].
  replace (forallb (fun row => Nat.eqb (length row) (length v)) (row :: X'))
    with true; [rewrite HN; reflexivity|].
  symmetry. apply forallb_forall. intros r Hin.
  rewrite Forall_forall in Hrows. rewrite (Hrows r Hin), Hv.
  apply Nat.eqb_refl.
Qed.

Lemma combine_map_r {A B C : Type} (f : B -> C) (a : list A) (b : list B) :
  combine a (map f b) = map (fun ab => (fst ab, f (snd ab))) (combine a b).
Proof.
  revert b. induction a as [|a0 a IH]; intros [|b0 b]; simpl; try reflexivity.
  rewrite IH. reflexivity.
Qed.

Lemma np_sub_same_length (a b : list float) :
  length a = length b ->
  np_sub a b = Ok (map (fun ab => fst ab - snd ab) (combine a b)).
Proof. intros H. unfold np_sub. rewrite H, Nat.eqb_refl. reflexivity. Qed.

Lemma nth_error_combine_seq {A B : Type} (g : nat -> B) (a : list A)
    (start i : nat) (y : A) :
  nth_error a i = Some y ->
  nth_error (combine a (map g (seq start (length a)))) i = Some (y, g (start + i)%nat).
Proof.
  revert start i. induction a as [|a0 a IH]; intros start i H.
  - destruct i; discriminate.
  - destruct i as [|i]; simpl in *.
    + injection H as ->. rewrite Nat.add_0_r. reflexivity.
    + rewrite (IH (S start) i H). f_equal. f_equal. f_equal. lia.
Qed.

(** The residuals as the code computes them: [Y - X @ v], entry by entry. *)
Lemma residuals_computed (np : numpy) (N p : nat) (X : list (list float))
    (Y v : list float) :
  is_matrix N p X -> length Y = N -> length v = p ->
  exists res,
    (Xb <- matmul np X v ;; np_sub Y Xb) = Ok res /\ is_residuals np Y X v res.
Proof.
  intros HX HY Hv. rewrite (matmul_ok np N p X v HX Hv). simpl.
  rewrite np_sub_same_length by (rewrite length_map, length_seq; exact HY).
  eexists. split; [reflexivity|]. split.
  - rewrite length_map, length_combine, length_map, length_seq. lia.
  - intros i y Hy. rewrite <- HY.
    rewrite nth_error_map, (nth_error_combine_seq _ Y 0 i y Hy). reflexivity.
Qed.

Lemma objective_total (np : numpy) (N p : nat) (X : list (list float))
    (Y v : list float) :
  is_matrix N p X -> length Y = N -> length v = p ->
  exists y, objective np Y X v = Ok y.
Proof.
  intros HX HY Hv. unfold objective.
  destruct (residuals_computed np N p X Y v HX HY Hv) as [res [E _]].
  unfold bind in E.
  destruct (matmul np X v) as [Xb|e]; [|discriminate]. simpl. rewrite E.
  simpl. eexists; reflexivity.
Qed.

Lemma constraint_all (delta : float) (k : Z) (beta : list float) :
  (len beta <= k)%Z ->
  constraint delta k beta = (m <- np_max (np_abs beta) ;; Ok (m - delta)).
Proof. intros H. unfold constraint. rewrite (slice_to_all _ _ H). reflexivity. Qed.

Lemma constraint_total (delta : float) (k : Z) (beta : list float) :
  beta <> [] -> (len beta <= k)%Z -> exists c, constraint delta k beta = Ok c.
Proof.
  intros Hne Hk. rewrite (constraint_all _ _ _ Hk).
  destruct (np_max_nonempty (np_abs beta)) as [m Hm].
  - destruct beta; [congruence|discriminate].
  - rewrite Hm. simpl. eexists; reflexivity.
Qed.

Lemma length_pos_nonempty {A : Type} (a : list A) :
  (1 <= length a)%nat -> a <> [].
Proof. destruct a; simpl; [lia|discriminate]. Qed.

Lemma constrained_ols_no_error (np : numpy) minimize (N p : nat)
    (Y : list float) (X : list (list float)) (delta : float) (k : Z)
    (start_val : list float) (muc : option float) :
  cobyla_returns minimize ->
  is_matrix N p X -> length Y = N -> length start_val = p ->
  (1 <= p)%nat -> (Z.of_nat p < k)%Z -> (0 <? delta) = true ->
  exists evs beta conv,
    constrained_ols np minimize Y X delta k start_val muc = (evs, Ok (beta, conv)).
Proof.
  intros Hcob HX HY Hsv Hp Hk Hd.
  assert (Hlen : (len start_val <= k)%Z) by (unfold len; lia).
  assert (Hm : exists m, fast_path_value start_val k muc = Ok m).
  { destruct muc as [given|]; simpl; [eexists; reflexivity|].
    rewrite (slice_to_all _ _ Hlen). apply np_max_nonempty.
    destruct start_val; simpl in *; [lia|discriminate]. }
  destruct Hm as [m Hm].
  destruct (delta <=? m) eqn:Hge.
  - exists [], start_val, true.
    apply (constrained_ols_returns_start np minimize Y X delta k start_val muc m);
      auto; lia.
  - assert (Hobj : forall v, length v = length start_val ->
                             exists y, objective np Y X v = Ok y).
    { intros v Hv. apply (objective_total np N p); congruence. }
    assert (Hcon : forall v, length v = length start_val ->
                             exists c, constraint delta k v = Ok c).
    { intros v Hv. apply constraint_total.
      - apply length_pos_nonempty. lia.
      - unfold len. lia. }
    unfold constrained_ols.
    rewrite (_validate_positive_ok _ _ Hd).
    destruct (k <? 1)%Z eqn:Hk1; [apply Z.ltb_lt in Hk1; lia|].
    assert (E : (match muc with
                 | Some given => ret given
                 | None => lift (np_max (np_abs (slice_to start_val k)))
                 end) = ([], Ok m)).
    { unfold fast_path_value in Hm.
      destruct muc as [given|]; [injection Hm as ->; reflexivity|].
      rewrite Hm. reflexivity. }
    rewrite E. unfold lbind at 1 2 3. simpl. rewrite Hge.
    unfold run_minimize, lbind, tell, lift. simpl.
    destruct (Hcob (objective np Y X) start_val (constraint delta k)
                first_run_options Hobj Hcon) as [r1 [Hr1 Hl1]].
    fold first_run_options. rewrite Hr1. simpl.
    destruct (negb (success r1)); simpl.
    + destruct (Hcob (objective np Y X) start_val (constraint delta k)
                  {| maxiter := 5000000; rhobeg := 0.1;
                     tol := 1e-10; catol := 1e-12 |} Hobj Hcon) as [r2 [Hr2 Hl2]].
      rewrite Hr2. simpl.
      destruct (Hcon (x r2) Hl2) as [c Hc]. rewrite Hc. simpl.
      destruct (1e-8 <? - c); simpl; eexists; eexists; eexists; reflexivity.
    + destruct (Hcon (x r1) Hl1) as [c Hc]. rewrite Hc. simpl.
      destruct (1e-8 <? - c); simpl; eexists; eexists; eexists; reflexivity.
Qed.

(** C10, as the code has it. [constrained_ols] never compares [no_placebos]
    with the number [p] of coefficients. For every [k > p] with [p >= 1]
    ([k >= 1], [delta > 0], [X] an [N] by [p] matrix, [Y] of length [N],
    [start_val] of length [p]) no error is raised: the slice [start_val[0:k]]
    is the whole vector, so the fast-path test is the maximum over all [p]
    coefficients, and so is the constraint function on every vector of length
    [p]. *)
Theorem constrained_ols_placebo_count_not_checked :
  forall (np : numpy) minimize (N p : nat) (Y : list float) (X : list (list float))
         (start_val : list float) (k : Z) (delta : float),
    cobyla_returns minimize ->
    is_matrix N p X -> length Y = N -> length start_val = p ->
    (1 <= p)%nat -> (Z.of_nat p < k)%Z -> (0 <? delta) = true ->
    slice_to start_val k = start_val /\
    fast_path_value start_val k None = np_max (np_abs start_val) /\
    (forall beta, length beta = p ->
       constraint delta k beta = (m <- np_max (np_abs beta) ;; Ok (m - delta))) /\
    (forall max_unconstr_coef, exists evs beta conv,
       constrained_ols np minimize Y X delta k start_val max_unconstr_coef
         = (evs, Ok (beta, conv))).
Proof.
  intros np minimize N p Y X start_val k delta Hcob HX HY Hsv Hp Hk Hd.
  assert (Hlen : (len start_val <= k)%Z) by (unfold len; lia).
  split; [|split; [|split]].
  - apply slice_to_all; exact Hlen.
  - simpl. rewrite (slice_to_all _ _ Hlen). reflexivity.
  - intros beta Hb. apply constraint_all. unfold len. lia.
  - intros muc.
    apply (constrained_ols_no_error np minimize N p); assumption.
Qed.

Lemma stay_put_returns : cobyla_returns stay_put.
Proof.
  intros f x0 g options _ _. eexists. split; reflexivity.
Defined.

Lemma constrained_ols_placebo_count_not_checked_witness :
  slice_to [0.05; 0.03] 7 = [0.05; 0.03] /\
  fast_path_value [0.05; 0.03] 7 None = np_max (np_abs [0.05; 0.03]) /\
  (forall beta, length beta = 2%nat ->
     constraint 0.5 7 beta = (m <- np_max (np_abs beta) ;; Ok (m - 0.5))) /\
  (forall max_unconstr_coef, exists evs beta conv,
     constrained_ols index_order stay_put [1; 2; 3] [[1; 0]; [0; 1]; [1; 1]] 0.5 7
       [0.05; 0.03] max_unconstr_coef = (evs, Ok (beta, conv))).
Proof.
  apply (constrained_ols_placebo_count_not_checked index_order stay_put 3 2
           [1; 2; 3] [[1; 0]; [0; 1]; [1; 1]] [0.05; 0.03] 7 0.5).
  - exact stay_put_returns.
  - split; [split; [reflexivity|discriminate]|]. repeat constructor.
  - reflexivity.
  - reflexivity.
  - lia.
  - lia.
  - reflexivity.
Defined.

(** C10 as stated fails without coefficients: with [p = 0] ([X] the 1 by 0
    matrix, [start_val] empty) and [k = 1 > p] the slice is empty and
    [np.max] raises ValueError. *)
Lemma constrained_ols_empty_start_raises :
  is_matrix 1 0 [[]] /\ (len (@nil float) < 1)%Z /\ (0 <? 1) = true /\
  constrained_ols index_order stay_put [1] [[]] 1 1 [] None
    = ([], Raise (ValueError zero_size_array_to_reduction)).
Proof. repeat split; try discriminate. repeat constructor. Qed.

(** ** Residual variance: [np.unique] counts the distinct values *)

Lemma insert_unique_In (v : Z) (s : list Z) (a : Z) :
  In a (insert_unique v s) <-> a = v \/ In a s.
Proof.
  induction s as [|h t IH]; simpl.
  - intuition.
  - destruct (v ?= h)%Z eqn:C; simpl.
    + apply Z.compare_eq in C. subst h. intuition.
    + intuition.
    + rewrite IH. intuition.
Qed.

Lemma insert_unique_sorted (v : Z) (s : list Z) :
  StronglySorted Z.lt s -> StronglySorted Z.lt (insert_unique v s).
Proof.
  induction s as [|h t IH]; intros Hs; simpl.
  - constructor; constructor.
  - inversion Hs as [|h' t' Ht Hall]; subst.
    destruct (v ?= h)%Z eqn:C.
    + exact Hs.
    + constructor; [exact Hs|]. constructor.
      * exact C.
      * change (v < h)%Z in C. rewrite Forall_forall in Hall.
        apply Forall_forall. intros a Ha. specialize (Hall a Ha). lia.
    + constructor; [apply IH; exact Ht|].
      change (v > h)%Z in C. rewrite Forall_forall in Hall.
      apply Forall_forall. intros a Ha. apply insert_unique_In in Ha.
      destruct Ha as [->|Ha]; [lia|auto].
Qed.

Lemma np_unique_sorted (a : list Z) : StronglySorted Z.lt (np_unique a).
Proof.
  induction a as [|v a IH]; simpl; [constructor|].
  apply insert_unique_sorted. exact IH.
Qed.

Lemma np_unique_In (a : list Z) (v : Z) : In v (np_unique a) <-> In v a.
Proof.
  induction a as [|h a IH]; simpl; [tauto|].
  rewrite insert_unique_In, IH. intuition.
Qed.

Lemma strictly_sorted_NoDup (s : list Z) : StronglySorted Z.lt s -> NoDup s.
Proof.
  induction 1 as [|h t Ht IH Hall]; constructor; [|exact IH].
  intros Hin. rewrite Forall_forall in Hall. specialize (Hall h Hin). lia.
Qed.

Lemma np_unique_distinct_count (a : list Z) :
  len (np_unique a) = distinct_count a.
Proof.
  unfold distinct_count, len. f_equal. apply Nat.le_antisymm.
  - apply NoDup_incl_length.
    + apply strictly_sorted_NoDup, np_unique_sorted.
    + intros v Hv. apply nodup_In. apply np_unique_In. exact Hv.
  - apply NoDup_incl_length.
    + apply NoDup_nodup.
    + intros v Hv. apply np_unique_In. apply nodup_In in Hv. exact Hv.
Qed.

(** ** Residual variance: what is returned and what is raised *)

Lemma residuals_entries (np : numpy) (N p : nat) (X : list (list float))
    (Y v : list float) :
  length Y = N ->
  is_residuals np Y X v
    (map (fun ab => fst ab - snd ab)
         (combine Y (map (matvec_entry np X v) (seq 0 N)))).
Proof.
  intros HY. split.
  - rewrite length_map, length_combine, length_map, length_seq. lia.
  - intros i y Hy. rewrite <- HY.
    rewrite nth_error_map, (nth_error_combine_seq _ Y 0 i y Hy). reflexivity.
Qed.

Lemma sigma_hathat_c_well_shaped (np : numpy) (N p : nat) (beta : list float)
    (X : list (list float)) (Y : list float) (ID time : list Z) :
  length beta = p -> is_matrix N p X -> length Y = N ->
  length ID = N -> length time = N ->
  let n := distinct_count ID in
  let T := distinct_count time in
  let df := (Z.of_nat N - Z.of_nat p - n - T + 1)%Z in
  exists res,
    is_residuals np Y X beta res /\
    sigma_hathat_c np beta X Y ID time =
      if (df <=? 0)%Z then
        Raise (ValueError (degrees_of_freedom_must_be_positive
                             df (Z.of_nat N) (Z.of_nat p) n T))
      else Ok (np_sum np (map (fun r => r * r) res) / float_of_int df).
Proof.
  intros Hb HX HY HID Htime n T df.
  assert (HN : N <> 0%nat).
  { destruct HX as [[HXN Hne] _]. destruct X; [congruence|simpl in HXN; lia]. }
  eexists. split; [apply (residuals_entries np N p X Y beta HY)|].
  unfold sigma_hathat_c.
  assert (EID : (len ID =? 0)%Z = false)
    by (apply Z.eqb_neq; unfold len; lia).
  assert (Etime : (len time =? 0)%Z = false)
    by (apply Z.eqb_neq; unfold len; lia).
  rewrite EID, Etime. simpl.
  rewrite (matmul_ok np N p X beta HX Hb). simpl.
  rewrite np_sub_same_length by (rewrite length_map, length_seq; exact HY).
  simpl.
  assert (Hs : shape1 X = Ok (Z.of_nat p)).
  { destruct HX as [[HXN Hne] Hrows]. destruct X as [|row X']; [congruence|].
    inversion Hrows as [|row' X'' Hrow Hrest]. simpl. rewrite Hrow.
    reflexivity. }
  rewrite Hs. simpl.
  rewrite !np_unique_distinct_count.
  replace (len ID) with (Z.of_nat N) by (unfold len; congruence).
  fold n T df.
  destruct (df <=? 0)%Z; reflexivity.
Qed.

Lemma sigma_hathat_c_empty (np : numpy) (beta : list float)
    (X : list (list float)) (Y : list float) (ID time : list Z) :
  ID = [] \/ time = [] ->
  exists e, sigma_hathat_c np beta X Y ID time = Raise e /\ InvalidArgument e.
Proof.
  intros H. unfold sigma_hathat_c.
  destruct ID as [|i ID].
  - simpl. eexists. split; [reflexivity|exact I].
  - destruct H as [H|H]; [discriminate|]. subst time.
    replace (len (i :: ID) =? 0)%Z with false
      by (symmetry; apply Z.eqb_neq; unfold len; simpl; lia).
    simpl. eexists. split; [reflexivity|exact I].
Qed.

(** C2. For every numpy, [beta] of length [p], [X] an [N] by [p] matrix,
    [Y] of length [N] and non-empty [ID] and [time] of length [N], with
    [df = N - p - n - T + 1] ([n], [T] the numbers of distinct identifiers and
    periods): the residuals are the entries of [Y] minus the entries of
    numpy's product [X @ beta]; when [df > 0] [sigma_hathat_c] returns
    numpy's sum of their squares over [df]; it raises the
    degrees-of-freedom error, reporting [N], [p], [n], [T], exactly when
    [df <= 0]. Whatever the other arguments, an empty [ID] or [time] raises
    an InvalidArgument error. *)
Theorem sigma_hathat_c_contract :
  (forall (np : numpy) (N p : nat) (beta : list float) (X : list (list float))
          (Y : list float) (ID time : list Z),
      length beta = p -> is_matrix N p X -> length Y = N ->
      length ID = N -> length time = N -> N <> 0%nat ->
      let n := distinct_count ID in
      let T := distinct_count time in
      let df := (Z.of_nat N - Z.of_nat p - n - T + 1)%Z in
      exists res,
        is_residuals np Y X beta res /\
        ((0 < df)%Z ->
         sigma_hathat_c np beta X Y ID time
           = Ok (np_sum np (map (fun r => r * r) res) / float_of_int df)) /\
        ((df <= 0)%Z ->
         exists e, sigma_hathat_c np beta X Y ID time = Raise e /\
                   DegreesOfFreedomError (Z.of_nat N) (Z.of_nat p) n T e) /\
        ((exists e, sigma_hathat_c np beta X Y ID time = Raise e) ->
         (df <= 0)%Z)) /\
  (forall (np : numpy) (beta : list float) (X : list (list float))
          (Y : list float) (ID time : list Z),
      ID = [] \/ time = [] ->
      exists e, sigma_hathat_c np beta X Y ID time = Raise e /\ InvalidArgument e).
Proof.
  split.
  - intros np N p beta X Y ID time Hb HX HY HID Htime HN n T df.
    destruct (sigma_hathat_c_well_shaped np N p beta X Y ID time
                Hb HX HY HID Htime) as [res [Hres E]].
    fold n T df in E. exists res. split; [exact Hres|]. rewrite E.
    destruct (df <=? 0)%Z eqn:Hdf.
    + apply Z.leb_le in Hdf. repeat split.
      * intros Hpos. lia.
      * intros _. eexists. split; reflexivity.
      * intros _. exact Hdf.
    + apply Z.leb_gt in Hdf. repeat split.
      * intros Hle. lia.
      * intros [e He]. discriminate.
  - intros np beta X Y ID time H. apply sigma_hathat_c_empty. exact H.
Qed.

Lemma sigma_hathat_c_contract_witness :
  (exists res,
     is_residuals index_order panel_Y panel_X panel_beta res /\
     sigma_hathat_c index_order panel_beta panel_X panel_Y panel_ID panel_time
       = Ok (np_sum index_order (map (fun r => r * r) res) / float_of_int 73)) /\
  (exists e, sigma_hathat_c index_order [1] [[1]; [2]; [3]; [4]] [1; 2; 3; 5]
               [1; 1; 2; 2]%Z [1; 2; 1; 2]%Z = Raise e /\
             DegreesOfFreedomError 4 1 2 2 e) /\
  (exists e, sigma_hathat_c index_order [1] [[1]] [1] [] [1%Z] = Raise e /\
             InvalidArgument e).
Proof.
  split; [|split].
  - destruct (proj1 sigma_hathat_c_contract index_order 100%nat 3%nat
                panel_beta panel_X panel_Y panel_ID panel_time)
      as [res [Hres [Hpos _]]]; try reflexivity; try discriminate.
    + split; [split; [reflexivity|discriminate]|]. repeat constructor.
    + exists res. split; [exact Hres|]. apply Hpos. reflexivity.
  - destruct (proj1 sigma_hathat_c_contract index_order 4%nat 1%nat [1]
                [[1]; [2]; [3]; [4]] [1; 2; 3; 5] [1; 1; 2; 2]%Z [1; 2; 1; 2]%Z)
      as [res [_ [_ [Hneg _]]]]; try reflexivity; try discriminate.
    + split; [split; [reflexivity|discriminate]|]. repeat constructor.
    + apply Hneg. discriminate.
  - apply (proj2 sigma_hathat_c_contract index_order [1] [[1]] [1] [] [1%Z]).
    left. reflexivity.
Defined.

(** ** Residual variance: the sign of the estimate *)

Section Signs.

Variables prec emax : Z.

Lemma binary_round_aux_sign (sx : bool) (mx ex : Z) (lx : location) :
  SFsign_or_nan sx (binary_round_aux prec emax sx mx ex lx).
Proof.
  unfold binary_round_aux.
  destruct (shr_fexp prec emax mx ex lx) as [mrs' e'].
  destruct (shr_fexp prec emax _ e' loc_Exact) as [mrs'' e''].
  destruct (shr_m mrs''); simpl; auto.
  destruct (Z.leb e'' (emax - prec)); simpl; reflexivity.
Qed.

Lemma binary_round_sign (sx : bool) (mx : positive) (ex : Z) :
  SFsign_or_nan sx (binary_round prec emax sx mx ex).
Proof.
  unfold binary_round.
  destruct (shl_align mx ex _) as [mz ez]. apply binary_round_aux_sign.
Qed.

Lemma SFsign_false_not_negative (a : spec_float) :
  SFsign_or_nan false a -> SFnot_negative a.
Proof. destruct a; simpl; auto. Qed.

Lemma SFmul_self_not_negative (a : spec_float) :
  SFnot_negative (SFmul prec emax a a).
Proof.
  destruct a as [s|s| |s m e]; simpl; auto.
  - apply xorb_nilpotent.
  - apply SFsign_false_not_negative.
    rewrite xorb_nilpotent. apply binary_round_aux_sign.
Qed.

Lemma SFadd_not_negative (a b : spec_float) :
  SFnot_negative a -> SFnot_negative b ->
  SFnot_negative (SFadd prec emax a b).
Proof.
  destruct a as [sa|sa| |sa ma ea], b as [sb|sb| |sb mb eb]; simpl;
    intros Ha Hb; subst; auto.
  - destruct sa, sb; exact I.
  - reflexivity.
  - apply SFsign_false_not_negative. apply binary_round_sign.
Qed.

Lemma SFdiv_not_negative (a b : spec_float) :
  SFnot_negative a -> SFsign_or_nan false b ->
  SFnot_negative (SFdiv prec emax a b).
Proof.
  destruct a as [sa|sa| |sa ma ea], b as [sb|sb| |sb mb eb]; simpl;
    intros Ha Hb; subst; auto.
  destruct (SFdiv_core_binary prec emax (Z.pos ma) ea (Z.pos mb) eb)
    as [[mz ez] lz].
  apply SFsign_false_not_negative. apply binary_round_aux_sign.
Qed.

Lemma binary_normalize_of_nonneg (m e : Z) :
  (0 <= m)%Z -> SFsign_or_nan false (binary_normalize prec emax m e false).
Proof.
  intros Hm. destruct m as [|m|m]; simpl; [reflexivity| |lia].
  apply binary_round_sign.
Qed.

(** Squares, and sums and quotients of numbers that are not negative, are
    numbers. *)
Lemma SFmul_self_not_nan (a : spec_float) :
  a <> S754_nan -> SFmul prec emax a a <> S754_nan.
Proof.
  destruct a as [s|s| |s m e]; simpl; intros H; try discriminate;
    [congruence|].
  apply binary_round_aux_not_nan. lia.
Qed.

Lemma SFadd_not_negative_not_nan (a b : spec_float) :
  SFnot_negative a -> SFnot_negative b ->
  a <> S754_nan -> b <> S754_nan -> SFadd prec emax a b <> S754_nan.
Proof.
  destruct a as [sa|sa| |sa ma ea], b as [sb|sb| |sb mb eb]; simpl;
    intros Ha Hb Na Nb; subst; try discriminate; try congruence.
  - destruct sa, sb; discriminate.
  - apply binary_normalize_not_nan.
Qed.

Lemma SFdiv_core_binary_nonneg (m1 m2 : positive) (e1 e2 : Z) :
  (0 <= fst (fst (SFdiv_core_binary prec emax (Zpos m1) e1 (Zpos m2) e2)))%Z.
Proof.
  unfold SFdiv_core_binary.
  set (e' := Z.min _ _). set (s := (e1 - e2 - e')%Z).
  set (m' := match s with
             | Zpos _ => Z.shiftl (Zpos m1) s
             | Z0 => Zpos m1
             | Zneg _ => 0%Z
             end).
  assert (Hm' : (0 <= m')%Z).
  { unfold m'. destruct s; try lia. apply Z.shiftl_nonneg. lia. }
  pose proof (Z_div_mod m' (Zpos m2) eq_refl) as Hd.
  destruct (Z.div_eucl m' (Zpos m2)) as [q r]. simpl.
  destruct Hd as [Hd Hr]. nia.
Qed.

Lemma SFdiv_by_finite_not_nan (a : spec_float) (sb : bool) (mb : positive) (eb : Z) :
  a <> S754_nan -> SFdiv prec emax a (S754_finite sb mb eb) <> S754_nan.
Proof.
  destruct a as [sa|sa| |sa ma ea]; simpl; intros H; try discriminate;
    [congruence|].
  pose proof (SFdiv_core_binary_nonneg ma mb ea eb) as Hq.
  destruct (SFdiv_core_binary prec emax (Z.pos ma) ea (Z.pos mb) eb)
    as [[mz ez] lz].
  apply binary_round_aux_not_nan. exact Hq.
Qed.

End Signs.

Lemma square_not_negative (a : float) : not_negative (a * a).
Proof. unfold not_negative. rewrite mul_spec. apply SFmul_self_not_negative. Qed.

Lemma add_not_negative (a b : float) :
  not_negative a -> not_negative b -> not_negative (a + b).
Proof. unfold not_negative. rewrite add_spec. apply SFadd_not_negative. Qed.

Lemma float_of_int_sign (k : Z) : SFsign_or_nan false (Prim2SF (float_of_int k)).
Proof.
  unfold float_of_int. rewrite of_uint63_spec.
  apply binary_normalize_of_nonneg.
  apply (Uint63.to_Z_bounded (Uint63.of_Z k)).
Qed.

Lemma div_not_negative (a : float) (k : Z) :
  not_negative a -> not_negative (a / float_of_int k).
Proof.
  unfold not_negative. rewrite div_spec. intros Ha.
  apply SFdiv_not_negative; [exact Ha | apply float_of_int_sign].
Qed.

Lemma not_negative_compare (a : float) :
  not_negative a ->
  (a <? 0) = false /\ (is_nan a = false -> (0 <=? a) = true).
Proof.
  unfold not_negative. intros Ha. split.
  - rewrite ltb_spec, Prim2SF_zero. unfold SFltb.
    destruct (Prim2SF a) as [s|s| |s m e]; simpl in *; subst; reflexivity.
  - intros Hn. apply is_nan_spec in Hn.
    rewrite leb_spec, Prim2SF_zero. unfold SFleb.
    destruct (Prim2SF a) as [s|s| |s m e]; simpl in *; subst;
      try reflexivity; congruence.
Qed.

(** A number that is not negative and not equal to zero is positive. *)
Lemma not_negative_not_zero_positive (a : float) :
  not_negative a -> (a =? 0) = false -> is_nan a = false -> (0 <? a) = true.
Proof.
  unfold not_negative. intros Ha Hz Hn. apply is_nan_spec in Hn.
  rewrite eqb_spec, Prim2SF_zero in Hz. rewrite ltb_spec, Prim2SF_zero.
  unfold SFeqb in Hz. unfold SFltb.
  destruct (Prim2SF a) as [s|s| |s m e]; simpl in *; subst;
    try reflexivity; congruence.
Qed.

Lemma square_is_number (a : float) : is_nan a = false -> is_nan (a * a) = false.
Proof.
  intros H. apply is_nan_spec in H. apply is_nan_spec.
  rewrite mul_spec. apply SFmul_self_not_nan. exact H.
Qed.

Lemma add_is_number (a b : float) :
  not_negative a -> not_negative b ->
  is_nan a = false -> is_nan b = false -> is_nan (a + b) = false.
Proof.
  unfold not_negative. intros Ha Hb Na Nb.
  apply is_nan_spec in Na, Nb. apply is_nan_spec.
  rewrite add_spec. apply SFadd_not_negative_not_nan; assumption.
Qed.

(** A residual equal to zero, of either sign, has the square [0.0]. *)
Lemma square_of_zero (r : float) : (r =? 0) = true -> r * r = 0.
Proof.
  intros H. apply Prim2SF_inj. rewrite mul_spec, Prim2SF_zero.
  rewrite eqb_spec, Prim2SF_zero in H. unfold SFeqb in H.
  destruct (Prim2SF r) as [s|s| |s m e]; simpl in H; try discriminate.
  - destruct s; reflexivity.
  - destruct s; discriminate.
  - destruct s; discriminate.
Qed.

(** ** Rounding keeps the magnitude of a positive number *)

Section RoundedMagnitude.

Variables prec emax : Z.
Hypothesis prec_positive : (0 < prec)%Z.

Lemma shr_1_halves (mrs : shr_record) :
  (0 <= shr_m mrs)%Z -> shr_m (shr_1 mrs) = (shr_m mrs / 2)%Z.
Proof.
  destruct mrs as [m r s]. rewrite <- Z.div2_div.
  destruct m as [|q|q]; simpl; intros H; try lia; destruct q; reflexivity.
Qed.

Lemma iter_shr_1_divides (n : positive) (mrs : shr_record) :
  (0 <= shr_m mrs)%Z ->
  shr_m (iter_pos shr_1 n mrs) = (shr_m mrs / 2 ^ Zpos n)%Z.
Proof.
  revert mrs. induction n as [n IH|n IH|]; intros mrs H; simpl iter_pos.
  - rewrite IH, IH, shr_1_halves by
      (auto using iter_shr_1_nonneg, shr_1_nonneg).
    rewrite !Z.div_div by (try apply Z.pow_pos_nonneg; lia).
    f_equal. replace (Zpos n~1) with (1 + Zpos n + Zpos n)%Z by lia.
    rewrite !Z.pow_add_r by lia. change (2 ^ 1)%Z with 2%Z. lia.
  - rewrite IH, IH by (auto using iter_shr_1_nonneg).
    rewrite Z.div_div by (try apply Z.pow_pos_nonneg; lia).
    f_equal. replace (Zpos n~0) with (Zpos n + Zpos n)%Z by lia.
    rewrite Z.pow_add_r by lia. reflexivity.
  - rewrite shr_1_halves by exact H. reflexivity.
Qed.

(** [digits2_pos q] is the number of binary digits of [q]. *)
Lemma digits2_pos_lower (q : positive) :
  (2 ^ (Zpos (digits2_pos q) - 1) <= Zpos q)%Z.
Proof.
  induction q as [q IH|q IH|]; simpl digits2_pos.
  - rewrite Pos2Z.inj_succ.
    replace (Z.succ (Zpos (digits2_pos q)) - 1)%Z
      with (Z.succ (Zpos (digits2_pos q) - 1)) by lia.
    rewrite Z.pow_succ_r by lia. lia.
  - rewrite Pos2Z.inj_succ.
    replace (Z.succ (Zpos (digits2_pos q)) - 1)%Z
      with (Z.succ (Zpos (digits2_pos q) - 1)) by lia.
    rewrite Z.pow_succ_r by lia. lia.
  - simpl. lia.
Qed.

Lemma digits2_pos_upper (q : positive) :
  (Zpos q < 2 ^ Zpos (digits2_pos q))%Z.
Proof.
  induction q as [q IH|q IH|]; simpl digits2_pos.
  - rewrite Pos2Z.inj_succ, Z.pow_succ_r by lia. lia.
  - rewrite Pos2Z.inj_succ, Z.pow_succ_r by lia. lia.
  - reflexivity.
Qed.

Lemma digits2_pos_le (q : positive) (B : Z) :
  (Zpos q < 2 ^ B)%Z -> (Zpos (digits2_pos q) <= B)%Z.
Proof.
  intros H. destruct (Z.ltb_spec B 0) as [HB|HB].
  - rewrite Z.pow_neg_r in H by exact HB. lia.
  - pose proof (digits2_pos_lower q) as L.
    assert (HL : (2 ^ (Zpos (digits2_pos q) - 1) < 2 ^ B)%Z) by lia.
    apply Z.pow_lt_mono_r_iff in HL; lia.
Qed.

Lemma digits2_pos_ge (q : positive) (B : Z) :
  (2 ^ B <= Zpos q)%Z -> (B + 1 <= Zpos (digits2_pos q))%Z.
Proof.
  intros H. pose proof (digits2_pos_upper q) as U.
  pose proof (Pos2Z.is_pos (digits2_pos q)) as Hd.
  destruct (Z.ltb_spec B 0) as [HB|HB]; [lia|].
  assert (HL : (2 ^ B < 2 ^ Zpos (digits2_pos q))%Z) by lia.
  apply Z.pow_lt_mono_r_iff in HL; lia.
Qed.

Lemma digits2_pos_mono (q q1 : positive) :
  (Zpos q <= Zpos q1)%Z -> (Zpos (digits2_pos q) <= Zpos (digits2_pos q1))%Z.
Proof.
  intros H. pose proof (digits2_pos_lower q) as L.
  assert (H1 : (Zpos (digits2_pos q) - 1 + 1 <= Zpos (digits2_pos q1))%Z)
    by (apply digits2_pos_ge; lia).
  lia.
Qed.

(** Shifting a positive mantissa right to its format leaves it positive, no
    larger, and of the same magnitude. *)
Lemma shr_fexp_positive (q : positive) (e : Z) (l : location) :
  (SpecFloat.emin prec emax < Zpos (digits2_pos q) + e)%Z ->
  exists q',
    shr_m (fst (shr_fexp prec emax (Zpos q) e l)) = Zpos q' /\
    (Zpos q' <= Zpos q)%Z /\
    (Zpos (digits2_pos q) + e
     <= Zpos (digits2_pos q') + snd (shr_fexp prec emax (Zpos q) e l))%Z /\
    (e <= snd (shr_fexp prec emax (Zpos q) e l)
       <= Z.max e (Z.max (Zpos (digits2_pos q) + e - prec)
                         (SpecFloat.emin prec emax)))%Z.
Proof.
  intros He. unfold shr_fexp, shr.
  assert (Hm : shr_m (shr_record_of_loc (Zpos q) l) = Zpos q)
    by (destruct l as [|[ | | ]]; reflexivity).
  destruct (fexp prec emax (Zdigits2 (Zpos q) + e) - e)%Z as [|n|n] eqn:En;
    cbn [fst snd].
  - exists q. rewrite Hm. repeat split; lia.
  - rewrite iter_shr_1_divides, Hm by (rewrite Hm; lia).
    unfold fexp, Zdigits2 in En.
    assert (Hn : (Zpos n < Zpos (digits2_pos q))%Z) by lia.
    assert (Hp : (0 < 2 ^ Zpos n)%Z) by (apply Z.pow_pos_nonneg; lia).
    pose proof (digits2_pos_lower q) as L.
    assert (Hlow : (2 ^ (Zpos (digits2_pos q) - 1 - Zpos n)
                    <= Zpos q / 2 ^ Zpos n)%Z).
    { apply Z.div_le_lower_bound; [exact Hp|].
      rewrite <- Z.pow_add_r by lia.
      replace (Zpos n + (Zpos (digits2_pos q) - 1 - Zpos n))%Z
        with (Zpos (digits2_pos q) - 1)%Z by lia.
      exact L. }
    assert (Hpos : (0 < 2 ^ (Zpos (digits2_pos q) - 1 - Zpos n))%Z)
      by (apply Z.pow_pos_nonneg; lia).
    destruct (Zpos q / 2 ^ Zpos n)%Z as [|q'|q'] eqn:Eq; try lia.
    exists q'. split; [reflexivity|]. split; [|split].
    + rewrite <- Eq. apply Z.div_le_upper_bound; [exact Hp|]. nia.
    + pose proof (digits2_pos_ge q' _ Hlow). lia.
    + lia.
  - exists q. rewrite Hm. repeat split; lia.
Qed.

Lemma round_nearest_even_near (mx : Z) (lx : location) :
  (mx <= round_nearest_even mx lx <= mx + 1)%Z.
Proof.
  destruct lx as [|[ | | ]]; simpl; try destruct (Z.even mx); lia.
Qed.

(** Rounding a positive number that does not underflow gives a positive
    number of at least its magnitude, or infinity. *)
Lemma binary_round_aux_at_least (q : positive) (e : Z) (l : location) (M : Z) :
  (SpecFloat.emin prec emax < Zpos (digits2_pos q) + e)%Z ->
  (M <= Zpos (digits2_pos q) + e)%Z ->
  SFat_least M (binary_round_aux prec emax false (Zpos q) e l).
Proof.
  intros He HM. unfold binary_round_aux.
  destruct (shr_fexp_positive q e l He) as [q' [E1 [Hq' [Hmag1 He']]]].
  destruct (shr_fexp prec emax (Zpos q) e l) as [mrs' e'].
  cbn [fst snd] in E1, Hmag1, He'. rewrite E1.
  pose proof (round_nearest_even_near (Zpos q') (loc_of_shr_record mrs')) as Hr.
  destruct (round_nearest_even (Zpos q') (loc_of_shr_record mrs'))
    as [|q1|q1]; try lia.
  pose proof (digits2_pos_mono q' q1 (proj1 Hr)) as Hd1.
  assert (He1 : (SpecFloat.emin prec emax < Zpos (digits2_pos q1) + e')%Z) by lia.
  destruct (shr_fexp_positive q1 e' loc_Exact He1) as [q'' [E2 [Hq'' [Hmag2 He'']]]].
  destruct (shr_fexp prec emax (Zpos q1) e' loc_Exact) as [mrs'' e''].
  cbn [fst snd] in E2, Hmag2, He''. rewrite E2.
  destruct (Z.leb e'' (emax - prec)); cbn [SFat_least];
    [split; [reflexivity|lia]|reflexivity].
Qed.

(** The same from a mantissa that is yet to be aligned. *)
Lemma binary_round_at_least (q : positive) (e M : Z) :
  (SpecFloat.emin prec emax < Zpos (digits2_pos q) + e)%Z ->
  (M <= Zpos (digits2_pos q) + e)%Z ->
  SFat_least M (binary_round prec emax false q e).
Proof.
  intros He HM. unfold binary_round, shl_align.
  destruct (fexp prec emax (Zpos (digits2_pos q) + e) - e)%Z as [|d|d] eqn:En.
  - apply binary_round_aux_at_least; assumption.
  - apply binary_round_aux_at_least; assumption.
  - assert (Hd : (Zpos (digits2_pos q) + Zpos d
                  <= Zpos (digits2_pos (Pos.iter xO q d)))%Z).
    { pose proof (digits2_pos_lower q) as L.
      assert (Hp : (0 < 2 ^ Zpos d)%Z) by (apply Z.pow_pos_nonneg; lia).
      pose proof (Pos2Z.is_pos (digits2_pos q)) as Hq.
      assert (Hs : (2 ^ (Zpos (digits2_pos q) - 1 + Zpos d)
                    <= Zpos (Pos.iter xO q d))%Z).
      { change (Pos.iter xO q d) with (shift_pos d q).
        rewrite shift_pos_correct.
        change (Z.pow_pos 2 d) with (2 ^ Zpos d)%Z.
        rewrite Z.pow_add_r by lia. nia. }
      pose proof (digits2_pos_ge _ _ Hs). lia. }
    apply binary_round_aux_at_least; lia.
Qed.

(** The square of a number that is large enough not to underflow. *)
Lemma SFmul_self_at_least (a : spec_float) (K : Z) :
  match a with
  | S754_infinity _ => True
  | S754_finite _ m e => (K <= Zpos (digits2_pos m) + e)%Z
  | _ => False
  end ->
  (SpecFloat.emin prec emax < 2 * K - 1)%Z ->
  SFat_least (2 * K - 1) (SFmul prec emax a a).
Proof.
  destruct a as [s|s| |s m e]; cbn [SFmul SFat_least]; intros Ha HK;
    try contradiction.
  - apply xorb_nilpotent.
  - rewrite xorb_nilpotent.
    assert (Hd : (2 * Zpos (digits2_pos m) - 1 <= Zpos (digits2_pos (m * m)))%Z).
    { pose proof (digits2_pos_lower m) as L.
      pose proof (Pos2Z.is_pos (digits2_pos m)) as Hm.
      assert (Hp : (0 < 2 ^ (Zpos (digits2_pos m) - 1))%Z)
        by (apply Z.pow_pos_nonneg; lia).
      assert (Hs : (2 ^ (2 * Zpos (digits2_pos m) - 2) <= Zpos (m * m))%Z).
      { replace (2 * Zpos (digits2_pos m) - 2)%Z
          with ((Zpos (digits2_pos m) - 1) + (Zpos (digits2_pos m) - 1))%Z by lia.
        rewrite Z.pow_add_r by lia. rewrite Pos2Z.inj_mul. nia. }
      pose proof (digits2_pos_ge _ _ Hs). lia. }
    apply binary_round_aux_at_least; lia.
Qed.

(** Adding a number that is not negative to a large one leaves it large. *)
Lemma SFadd_at_least (a b : spec_float) (M : Z) :
  SFexponent_in_range (SpecFloat.emin prec emax) a ->
  SFexponent_in_range (SpecFloat.emin prec emax) b ->
  SFnot_negative a -> SFnot_negative b ->
  a <> S754_nan -> b <> S754_nan ->
  SFat_least M a \/ SFat_least M b ->
  SFat_least M (SFadd prec emax a b).
Proof.
  destruct a as [sa|sa| |sa ma ea], b as [sb|sb| |sb mb eb];
    cbn [SFadd SFat_least SFnot_negative SFexponent_in_range];
    intros Ea Eb Ha Hb Na Nb H; subst; try congruence;
    try (destruct H as [H|H]; try contradiction; exact H);
    try reflexivity.
  - unfold shl_align. cbn [cond_Zopp].
    set (ez := Z.min ea eb).
    assert (Hmag : forall (m : positive) (e : Z), (ez <= e)%Z ->
              (Zpos (digits2_pos m) + e
               <= Zpos (digits2_pos
                    (fst (match (ez - e)%Z with
                          | Zneg d => (Pos.iter xO m d, ez)
                          | _ => (m, e)
                          end))) + ez)%Z).
    { intros m e Hle. destruct (ez - e)%Z as [|d|d] eqn:Ed; cbn [fst]; try lia.
      pose proof (digits2_pos_lower m) as L.
      assert (Hp : (0 < 2 ^ Zpos d)%Z) by (apply Z.pow_pos_nonneg; lia).
      pose proof (Pos2Z.is_pos (digits2_pos m)) as Hq.
      assert (Hs : (2 ^ (Zpos (digits2_pos m) - 1 + Zpos d)
                    <= Zpos (Pos.iter xO m d))%Z).
      { change (Pos.iter xO m d) with (shift_pos d m).
        rewrite shift_pos_correct.
        change (Z.pow_pos 2 d) with (2 ^ Zpos d)%Z.
        rewrite Z.pow_add_r by lia. nia. }
      pose proof (digits2_pos_ge _ _ Hs). lia. }
    pose proof (Hmag ma ea (Z.le_min_l ea eb)) as Hma.
    pose proof (Hmag mb eb (Z.le_min_r ea eb)) as Hmb.
    set (ma' := fst (match (ez - ea)%Z with
                     | Zneg d => (Pos.iter xO ma d, ez)
                     | _ => (ma, ea)
                     end)) in *.
    set (mb' := fst (match (ez - eb)%Z with
                     | Zneg d => (Pos.iter xO mb d, ez)
                     | _ => (mb, eb)
                     end)) in *.
    change (Zpos ma' + Zpos mb')%Z with (Zpos (ma' + mb')).
    cbn [binary_normalize].
    assert (Hda : (Zpos (digits2_pos ma') <= Zpos (digits2_pos (ma' + mb')))%Z)
      by (apply digits2_pos_mono; lia).
    assert (Hdb : (Zpos (digits2_pos mb') <= Zpos (digits2_pos (ma' + mb')))%Z)
      by (apply digits2_pos_mono; lia).
    pose proof (Pos2Z.is_pos (digits2_pos (ma' + mb'))) as Hpos.
    assert (Hez : (SpecFloat.emin prec emax <= ez)%Z) by (unfold ez; lia).
    apply binary_round_at_least; [lia|].
    destruct H as [[_ H]|[_ H]]; lia.
Qed.

(** A quotient that does not underflow is positive. *)
Lemma SFdiv_at_least (ms md : positive) (es ed : Z) :
  (SpecFloat.emin prec emax + 1
   <= Zpos (digits2_pos ms) + es - (Zpos (digits2_pos md) + ed))%Z ->
  SFat_least (SpecFloat.emin prec emax + 1)
    (SFdiv prec emax (S754_finite false ms es) (S754_finite false md ed)).
Proof.
  intros HX. unfold SFdiv, SFdiv_core_binary.
  cbn [Zdigits2 xorb].
  set (d1 := Zpos (digits2_pos ms)) in *.
  set (d2 := Zpos (digits2_pos md)) in *.
  set (e' := Z.min (fexp prec emax (d1 + es - (d2 + ed))) (es - ed)).
  set (s := (es - ed - e')%Z).
  assert (Hs : (0 <= s)%Z) by (unfold s, e'; lia).
  set (m' := match s with
             | Zpos _ => Z.shiftl (Zpos ms) s
             | Z0 => Zpos ms
             | Zneg _ => 0%Z
             end).
  assert (Hm' : m' = (Zpos ms * 2 ^ s)%Z).
  { unfold m'. destruct s as [|p|p] eqn:Es; try lia.
    - rewrite Z.shiftl_mul_pow2 by lia. reflexivity. }
  set (k := (d1 - 1 + s - d2)%Z).
  assert (Hk : (0 <= k)%Z).
  { unfold k, s, e', fexp. lia. }
  assert (Hq : (2 ^ k <= m' / Zpos md)%Z).
  { apply Z.div_le_lower_bound; [lia|].
    pose proof (digits2_pos_lower ms) as L1.
    pose proof (digits2_pos_upper md) as U2.
    fold d1 in L1. fold d2 in U2.
    assert (Hd1 : (0 < d1)%Z) by (unfold d1; lia).
    assert (Hd2 : (0 < d2)%Z) by (unfold d2; lia).
    rewrite Hm'.
    apply Z.le_trans with (2 ^ d2 * 2 ^ k)%Z.
    - apply Z.mul_le_mono_nonneg_r; [apply Z.pow_nonneg; lia|lia].
    - rewrite <- Z.pow_add_r by lia.
      replace (d2 + k)%Z with ((d1 - 1) + s)%Z by (unfold k; lia).
      rewrite Z.pow_add_r by lia.
      apply Z.mul_le_mono_nonneg_r; [apply Z.pow_nonneg; lia|exact L1]. }
  pose proof (Z_div_mod m' (Zpos md) eq_refl) as Hdm.
  unfold Z.div in Hq.
  destruct (Z.div_eucl m' (Zpos md)) as [q r].
  assert (Hpk : (0 < 2 ^ k)%Z) by (apply Z.pow_pos_nonneg; lia).
  destruct q as [|q|q]; try lia.
  pose proof (digits2_pos_ge q k Hq) as Hdq.
  assert (Hmag : (SpecFloat.emin prec emax + 1 <= Zpos (digits2_pos q) + e')%Z).
  { unfold k, s in Hdq. lia. }
  apply binary_round_aux_at_least; lia.
Qed.

(** A positive integer below [2^B] becomes a positive finite number below
    [2^(3 B + 1)]. *)
Lemma binary_round_aux_finite (sx : bool) (q : positive) (e : Z)
    (l : location) (B : Z) :
  (SpecFloat.emin prec emax <= e)%Z -> (Zpos q < 2 ^ B)%Z ->
  (e + 2 * B <= emax - prec)%Z ->
  exists m e2,
    binary_round_aux prec emax sx (Zpos q) e l = S754_finite sx m e2 /\
    (Zpos (digits2_pos m) + e2 <= e + 3 * B + 1)%Z.
Proof.
  intros He Hq Hmax. unfold binary_round_aux.
  assert (HB : (0 <= B)%Z).
  { destruct (Z.ltb_spec B 0) as [HB|HB]; [|exact HB].
    rewrite Z.pow_neg_r in Hq by exact HB. lia. }
  pose proof (digits2_pos_le q B Hq) as Hd.
  pose proof (Pos2Z.is_pos (digits2_pos q)) as Hdq.
  destruct (shr_fexp_positive q e l) as [q' [E1 [Hq' [_ He']]]]; [lia|].
  destruct (shr_fexp prec emax (Zpos q) e l) as [mrs' e'].
  cbn [fst snd] in E1, He'. rewrite E1.
  pose proof (round_nearest_even_near (Zpos q') (loc_of_shr_record mrs')) as Hr.
  destruct (round_nearest_even (Zpos q') (loc_of_shr_record mrs'))
    as [|q1|q1]; try lia.
  assert (Hq1 : (Zpos q1 < 2 ^ (B + 1))%Z)
    by (rewrite Z.pow_add_r by lia; change (2 ^ 1)%Z with 2%Z; lia).
  pose proof (digits2_pos_le q1 (B + 1) Hq1) as Hd1.
  pose proof (Pos2Z.is_pos (digits2_pos q1)) as Hdq1.
  destruct (shr_fexp_positive q1 e' loc_Exact) as [q'' [E2 [Hq'' [_ He'']]]];
    [lia|].
  destruct (shr_fexp prec emax (Zpos q1) e' loc_Exact) as [mrs'' e''].
  cbn [fst snd] in E2, He''. rewrite E2.
  replace (Z.leb e'' (emax - prec)) with true
    by (symmetry; apply Z.leb_le; lia).
  exists q'', e''. split; [reflexivity|].
  assert (Hq2 : (Zpos q'' < 2 ^ (B + 1))%Z) by lia.
  pose proof (digits2_pos_le q'' (B + 1) Hq2). lia.
Qed.

Lemma binary_round_finite (sx : bool) (q : positive) (e B : Z) :
  (SpecFloat.emin prec emax <= e <= 0)%Z -> (Zpos q < 2 ^ B)%Z -> (prec <= B)%Z ->
  (2 * B <= emax - prec)%Z ->
  exists m e2,
    binary_round prec emax sx q e = S754_finite sx m e2 /\
    (Zpos (digits2_pos m) + e2 <= 3 * B + 1)%Z.
Proof.
  intros He Hq HB Hmax. unfold binary_round, shl_align.
  destruct (fexp prec emax (Zpos (digits2_pos q) + e) - e)%Z as [|d|d] eqn:En.
  - destruct (binary_round_aux_finite sx q e loc_Exact B) as [m [e2 [E Hm]]];
      try lia. exists m, e2. split; [exact E|lia].
  - destruct (binary_round_aux_finite sx q e loc_Exact B) as [m [e2 [E Hm]]];
      try lia. exists m, e2. split; [exact E|lia].
  - destruct (binary_round_aux_finite sx (Pos.iter xO q d)
                (fexp prec emax (Zpos (digits2_pos q) + e)) loc_Exact B)
      as [m [e2 [E Hm]]].
    + unfold fexp. lia.
    + change (Pos.iter xO q d) with (shift_pos d q).
      rewrite shift_pos_correct.
      change (Z.pow_pos 2 d) with (2 ^ Zpos d)%Z.
      pose proof (digits2_pos_upper q) as Hu.
      unfold fexp in En.
      assert (Hd : (Zpos (digits2_pos q) + Zpos d <= B)%Z) by lia.
      apply Z.lt_le_trans with (2 ^ (Zpos (digits2_pos q) + Zpos d))%Z;
        [|apply Z.pow_le_mono_r; lia].
      rewrite Z.pow_add_r by lia.
      assert (Hp : (0 < 2 ^ Zpos d)%Z) by (apply Z.pow_pos_nonneg; lia).
      nia.
    + unfold fexp in *. lia.
    + exists m, e2. split; [exact E|]. unfold fexp in *. lia.
Qed.

End RoundedMagnitude.

Lemma float_of_int_finite (k : Z) :
  (0 < k < 2 ^ 63)%Z ->
  exists m e, Prim2SF (float_of_int k) = S754_finite false m e /\
              (Zpos (digits2_pos m) + e <= 190)%Z.
Proof.
  intros Hk. unfold float_of_int. rewrite of_uint63_spec, Uint63.of_Z_spec.
  rewrite Z.mod_small by (change Uint63.wB with (2 ^ 63)%Z; lia).
  destruct k as [|q|q]; try lia. unfold binary_normalize.
  apply (binary_round_finite prec emax eq_refl false q 0 63).
  - split; discriminate.
  - lia.
  - discriminate.
  - discriminate.
Qed.

Lemma float_of_int_positive (k : Z) :
  (0 < k < 2 ^ 63)%Z -> (0 <? float_of_int k) = true.
Proof.
  intros Hk. destruct (float_of_int_finite k Hk) as [m [e [E _]]].
  rewrite ltb_spec, Prim2SF_zero, E. reflexivity.
Qed.

Lemma zero_div_float_of_int (k : Z) :
  (0 < k < 2 ^ 63)%Z -> 0 / float_of_int k = 0.
Proof.
  intros Hk. destruct (float_of_int_finite k Hk) as [m [e [E _]]].
  apply Prim2SF_inj. rewrite div_spec, E, Prim2SF_zero. reflexivity.
Qed.

Lemma div_float_of_int_is_number (a : float) (k : Z) :
  (0 < k < 2 ^ 63)%Z -> is_nan a = false -> is_nan (a / float_of_int k) = false.
Proof.
  intros Hk Ha. destruct (float_of_int_finite k Hk) as [m [e [E _]]].
  apply is_nan_spec in Ha. apply is_nan_spec.
  rewrite div_spec, E. apply SFdiv_by_finite_not_nan. exact Ha.
Qed.

(** ** Large enough residuals give a positive estimate *)

Lemma exponent_in_range (a : float) :
  SFexponent_in_range (SpecFloat.emin prec emax) (Prim2SF a).
Proof.
  pose proof (Prim2SF_valid a) as V.
  destruct (Prim2SF a) as [s|s| |s m e]; try exact I.
  cbn [SFexponent_in_range].
  unfold valid_binary, bounded, canonical_mantissa in V.
  apply andb_prop in V. destruct V as [V _]. apply Z.eqb_eq in V.
  unfold fexp in V. lia.
Qed.

Lemma add_at_least (a b : float) (M : Z) :
  not_negative a -> not_negative b -> is_nan a = false -> is_nan b = false ->
  at_least M a \/ at_least M b -> at_least M (a + b).
Proof.
  unfold at_least, not_negative. intros Ha Hb Na Nb H.
  apply is_nan_spec in Na, Nb. rewrite add_spec.
  apply (SFadd_at_least prec emax eq_refl); try apply exponent_in_range;
    assumption.
Qed.

Lemma SFleb_abs_exponent (mc : positive) (ec : Z) (a : spec_float) :
  SFleb (S754_finite false mc ec) (SFabs a) = true ->
  match a with
  | S754_infinity _ => True
  | S754_finite _ m e => (ec + 1 <= Zpos (digits2_pos m) + e)%Z
  | _ => False
  end.
Proof.
  unfold SFleb. intros H.
  destruct a as [s|s| |s m e]; simpl in H; try discriminate; auto.
  pose proof (Pos2Z.is_pos (digits2_pos m)) as Hd.
  destruct (Z.compare_spec ec e) as [C|C|C]; try discriminate; lia.
Qed.

Lemma Prim2SF_1e_100 :
  Prim2SF 1e-100 = S754_finite false 7880401239278896 (-385).
Proof. reflexivity. Qed.

(** The square of a residual of at least [1e-100] in absolute value is at
    least [2^(-770)]. *)
Lemma square_at_least (r : float) :
  (1e-100 <=? abs r) = true -> at_least (-769) (r * r).
Proof.
  intros H. rewrite leb_spec, abs_spec, Prim2SF_1e_100 in H.
  apply SFleb_abs_exponent in H.
  unfold at_least. rewrite mul_spec.
  apply (SFmul_self_at_least prec emax eq_refl (Prim2SF r) (-384) H).
  reflexivity.
Qed.

Lemma SFat_least_positive (M : Z) (a : spec_float) :
  SFat_least M a -> SFltb (S754_zero false) a = true.
Proof.
  destruct a as [s|s| |s m e]; cbn [SFat_least]; try contradiction.
  - intros ->. reflexivity.
  - intros [-> _]. reflexivity.
Qed.

(** Over a number of observations the quotient does not underflow. *)
Lemma div_float_of_int_positive (a : float) (k : Z) :
  (0 < k < 2 ^ 63)%Z -> at_least (-769) a -> (0 <? a / float_of_int k) = true.
Proof.
  intros Hk Ha. destruct (float_of_int_finite k Hk) as [md [ed [E Hmag]]].
  rewrite ltb_spec, Prim2SF_zero, div_spec, E. unfold at_least in Ha.
  destruct (Prim2SF a) as [s|s| |s ms es]; cbn [SFat_least] in Ha;
    try contradiction.
  - subst s. reflexivity.
  - destruct Ha as [-> Ha].
    apply (SFat_least_positive (SpecFloat.emin prec emax + 1)).
    apply (SFdiv_at_least prec emax eq_refl).
    change (SpecFloat.emin prec emax) with (-1074)%Z. lia.
Qed.

(** ** Residual variance: sums in any order *)

(** What holds of [0.0] and is kept by [+] holds of every sum of numbers of
    which it holds, in whatever order and grouping they are added. *)
Lemma added_up_invariant (P : float -> Prop) :
  P 0 -> (forall a b, P a -> P b -> P (a + b)) ->
  forall l v, added_up l v -> Forall P l -> P v.
Proof.
  intros H0 Hadd l v H.
  induction H as [|a|l1 l2 v1 v2 H1 IH1 H2 IH2|l l' v Hp H IH]; intros HF.
  - exact H0.
  - inversion HF; assumption.
  - apply Forall_app in HF. destruct HF as [HF1 HF2]. apply Hadd; auto.
  - apply IH. rewrite Forall_forall in *. intros a Ha. apply HF.
    apply (Permutation_in _ Hp Ha).
Qed.

Lemma fold_add_added_up (l pre : list float) (acc : float) :
  added_up pre acc -> added_up (pre ++ l) (fold_left PrimFloat.add l acc).
Proof.
  revert pre acc. induction l as [|a l IH]; intros pre acc H; simpl.
  - rewrite app_nil_r. exact H.
  - replace (pre ++ a :: l) with ((pre ++ [a]) ++ l)
      by (rewrite <- app_assoc; reflexivity).
    apply IH. apply added_both; [exact H|apply added_one].
Qed.

(** Adding in index order is one way of adding up. *)
Lemma index_order_adds_up : adds_up index_order.
Proof.
  intros l. apply (fold_add_added_up l [] 0). apply added_none.
Qed.

Lemma squares_not_negative (res : list float) :
  Forall not_negative (map (fun r => r * r) res).
Proof.
  apply Forall_forall. intros a Ha.
  apply in_map_iff in Ha. destruct Ha as [r [<- _]]. apply square_not_negative.
Qed.

Lemma sum_of_squares_not_negative (np : numpy) (res : list float) :
  adds_up np -> not_negative (np_sum np (map (fun r => r * r) res)).
Proof.
  intros Hnp.
  apply (added_up_invariant not_negative I add_not_negative _ _ (Hnp _)).
  apply squares_not_negative.
Qed.

Lemma sum_of_squares_zero (np : numpy) (res : list float) :
  adds_up np -> Forall (fun r => (r =? 0) = true) res ->
  np_sum np (map (fun r => r * r) res) = 0.
Proof.
  intros Hnp Hres.
  apply (added_up_invariant (fun a => a = 0) eq_refl) with
    (l := map (fun r => r * r) res); [|apply Hnp|].
  - intros a b -> ->. reflexivity.
  - apply Forall_forall. intros a Ha.
    apply in_map_iff in Ha. destruct Ha as [r [<- Hr]].
    rewrite Forall_forall in Hres. apply square_of_zero, Hres, Hr.
Qed.

Lemma sum_of_squares_is_number (np : numpy) (res : list float) :
  adds_up np -> Forall (fun r => is_nan r = false) res ->
  is_nan (np_sum np (map (fun r => r * r) res)) = false.
Proof.
  intros Hnp Hres.
  apply (added_up_invariant (fun a => not_negative a /\ is_nan a = false))
    with (l := map (fun r => r * r) res); [| |apply Hnp|].
  - split; [exact I|reflexivity].
  - intros a b [Ha Na] [Hb Nb].
    split; [apply add_not_negative|apply add_is_number]; assumption.
  - apply Forall_forall. intros a Ha.
    apply in_map_iff in Ha. destruct Ha as [r [<- Hr]].
    rewrite Forall_forall in Hres.
    split; [apply square_not_negative|apply square_is_number, Hres, Hr].
Qed.

Lemma added_up_at_least (M : Z) (l : list float) (v : float) :
  added_up l v ->
  Forall (fun a => not_negative a /\ is_nan a = false) l ->
  Exists (at_least M) l -> at_least M v.
Proof.
  intros H.
  induction H as [|a|l1 l2 v1 v2 H1 IH1 H2 IH2|l l' v Hp H IH]; intros HF HE.
  - inversion HE.
  - inversion HE as [a' l' Ha|a' l' Ha]; [exact Ha|inversion Ha].
  - apply Forall_app in HF. destruct HF as [HF1 HF2].
    assert (N : forall l v, added_up l v ->
                Forall (fun a => not_negative a /\ is_nan a = false) l ->
                not_negative v /\ is_nan v = false).
    { apply (added_up_invariant
               (fun a => not_negative a /\ is_nan a = false)).
      - split; [exact I|reflexivity].
      - intros a b [Ha Na] [Hb Nb].
        split; [apply add_not_negative|apply add_is_number]; assumption. }
    destruct (N _ _ H1 HF1) as [Hv1 Nv1]. destruct (N _ _ H2 HF2) as [Hv2 Nv2].
    apply add_at_least; try assumption.
    apply Exists_app in HE. destruct HE as [HE|HE]; [left|right]; auto.
  - apply IH.
    + rewrite Forall_forall in *. intros a Ha. apply HF.
      apply (Permutation_in _ Hp Ha).
    + rewrite Exists_exists in *. destruct HE as [a [Ha Hm]].
      exists a. split; [|exact Hm].
      apply (Permutation_in _ (Permutation_sym Hp) Ha).
Qed.

Lemma sum_of_squares_at_least (np : numpy) (res : list float) :
  adds_up np -> Forall (fun r => is_nan r = false) res ->
  (exists r, In r res /\ (1e-100 <=? abs r) = true) ->
  at_least (-769) (np_sum np (map (fun r => r * r) res)).
Proof.
  intros Hnp Hres [r [Hin Hr]].
  apply (added_up_at_least (-769) (map (fun r => r * r) res)); [apply Hnp| |].
  - apply Forall_forall. intros a Ha.
    apply in_map_iff in Ha. destruct Ha as [r' [<- Hr']].
    rewrite Forall_forall in Hres.
    split; [apply square_not_negative|apply square_is_number, Hres, Hr'].
  - apply Exists_exists. exists (r * r). split.
    + apply in_map_iff. exists r. split; [reflexivity|exact Hin].
    + apply square_at_least, Hr.
Qed.

Lemma not_all_zero (res : list float) :
  Forall (fun r => (r =? 0) = true) res \/
  exists r, In r res /\ (r =? 0) = false.
Proof.
  induction res as [|r res [IH|[r' [Hin Hr']]]].
  - left. constructor.
  - destruct (r =? 0) eqn:Hr.
    + left. constructor; assumption.
    + right. exists r. split; [left; reflexivity|exact Hr].
  - right. exists r'. split; [right; exact Hin|exact Hr'].
Qed.

Lemma distinct_count_positive (a : list Z) : a <> [] -> (0 < distinct_count a)%Z.
Proof.
  intros Ha. unfold distinct_count, len.
  destruct a as [|h t]; [congruence|].
  assert (Hin : In h (nodup Z.eq_dec (h :: t)))
    by (apply nodup_In; left; reflexivity).
  destruct (nodup Z.eq_dec (h :: t)); [contradiction|].
  rewrite length_cons. lia.
Qed.

(** C8, as the code has it. For every numpy whose sum adds its argument up
    (in whatever order and grouping) and every well-shaped input of fewer
    than [2^63] observations with [df = N - p - n - T + 1 > 0],
    [sigma_hathat_c] returns the sum of the squared residuals over [df], and
    this value is never negative: it is a number [>= 0] whenever no residual
    is NaN, and [>= 0] whenever it is a number. It is [0.0] whenever every
    residual is zero. It is strictly positive whenever no residual is NaN
    and some residual is at least [1e-100] in absolute value; whenever it is
    a number other than zero; and only if some residual is not zero. *)
Theorem sigma_hathat_c_not_negative :
  forall (np : numpy) (N p : nat) (beta : list float) (X : list (list float))
         (Y : list float) (ID time : list Z),
    adds_up np ->
    length beta = p -> is_matrix N p X -> length Y = N ->
    length ID = N -> length time = N -> N <> 0%nat ->
    (Z.of_nat N < 2 ^ 63)%Z ->
    let df := (Z.of_nat N - Z.of_nat p - distinct_count ID
               - distinct_count time + 1)%Z in
    (0 < df)%Z ->
    exists v res,
      sigma_hathat_c np beta X Y ID time = Ok v /\
      is_residuals np Y X beta res /\
      v = np_sum np (map (fun r => r * r) res) / float_of_int df /\
      (0 <? float_of_int df) = true /\
      (v <? 0) = false /\
      (is_nan v = false -> (0 <=? v) = true) /\
      (Forall (fun r => is_nan r = false) res ->
       is_nan v = false /\ (0 <=? v) = true) /\
      (Forall (fun r => (r =? 0) = true) res -> v = 0) /\
      (Forall (fun r => is_nan r = false) res ->
       (exists r, In r res /\ (1e-100 <=? abs r) = true) ->
       (0 <? v) = true) /\
      ((v =? 0) = false -> is_nan v = false -> (0 <? v) = true) /\
      ((0 <? v) = true -> exists r, In r res /\ (r =? 0) = false).
Proof.
  intros np N p beta X Y ID time Hnp Hb HX HY HID Htime HN HN63 df Hdf.
  destruct (sigma_hathat_c_well_shaped np N p beta X Y ID time
              Hb HX HY HID Htime) as [res [Hres E]].
  fold df in E.
  replace (df <=? 0)%Z with false in E by (symmetry; apply Z.leb_gt; exact Hdf).
  assert (Hk : (0 < df < 2 ^ 63)%Z).
  { assert (HID' : ID <> []) by (destruct ID; [simpl in HID; lia|discriminate]).
    pose proof (distinct_count_positive ID HID') as Hn.
    assert (HT : (0 <= distinct_count time)%Z)
      by (unfold distinct_count, len; lia).
    unfold df in *. lia. }
  pose proof (sum_of_squares_not_negative np res Hnp) as HS.
  pose proof (div_not_negative _ df HS) as Hv.
  destruct (not_negative_compare _ Hv) as [Hlt Hle].
  eexists. exists res. split; [exact E|]. split; [exact Hres|].
  split; [reflexivity|]. split; [apply float_of_int_positive, Hk|].
  split; [exact Hlt|]. split; [exact Hle|].
  split; [|split; [|split; [|split]]].
  - intros Hnum.
    assert (Hn : is_nan (np_sum np (map (fun r => r * r) res) / float_of_int df)
                 = false).
    { apply div_float_of_int_is_number; [exact Hk|].
      apply sum_of_squares_is_number; assumption. }
    split; [exact Hn|apply Hle, Hn].
  - intros Hzero. rewrite (sum_of_squares_zero np res Hnp Hzero).
    apply zero_div_float_of_int, Hk.
  - intros Hnum Hbig. apply div_float_of_int_positive; [exact Hk|].
    apply sum_of_squares_at_least; assumption.
  - apply not_negative_not_zero_positive, Hv.
  - intros Hpos. destruct (not_all_zero res) as [Hzero|Hsome]; [|exact Hsome].
    rewrite (sum_of_squares_zero np res Hnp Hzero) in Hpos.
    rewrite (zero_div_float_of_int df Hk) in Hpos. discriminate.
Qed.

Lemma sigma_hathat_c_not_negative_witness :
  exists v res,
    sigma_hathat_c index_order [1] [[1]; [2]; [3]; [4]; [5]; [6]; [7]; [8]; [9]]
      [1; 2; 3; 5; 5; 6; 7; 8; 9.5]
      [1; 1; 1; 2; 2; 2; 3; 3; 3]%Z [1; 2; 3; 1; 2; 3; 1; 2; 3]%Z = Ok v /\
    is_residuals index_order [1; 2; 3; 5; 5; 6; 7; 8; 9.5]
      [[1]; [2]; [3]; [4]; [5]; [6]; [7]; [8]; [9]] [1] res /\
    v = np_sum index_order (map (fun r => r * r) res) / float_of_int 3 /\
    (0 <? float_of_int 3) = true /\
    (v <? 0) = false /\
    (is_nan v = false -> (0 <=? v) = true) /\
    (Forall (fun r => is_nan r = false) res ->
     is_nan v = false /\ (0 <=? v) = true) /\
    (Forall (fun r => (r =? 0) = true) res -> v = 0) /\
    (Forall (fun r => is_nan r = false) res ->
     (exists r, In r res /\ (1e-100 <=? abs r) = true) ->
     (0 <? v) = true) /\
    ((v =? 0) = false -> is_nan v = false -> (0 <? v) = true) /\
    ((0 <? v) = true -> exists r, In r res /\ (r =? 0) = false).
Proof.
  apply (sigma_hathat_c_not_negative index_order 9%nat 1%nat);
    try reflexivity; try discriminate.
  - apply index_order_adds_up.
  - split; [split; [reflexivity|discriminate]|]. repeat constructor.
Defined.

(** C8 as stated fails on a perfect fit: on the 20 by 5 panel of the
    specification's scenario ([N = 100], [p = 3], [n = 20], [T = 5], so
    [df = 73 > 0]) with [Y = X beta], the estimate is [0.0], which is not
    strictly positive. *)
Lemma sigma_hathat_c_zero_on_perfect_fit :
  (Z.of_nat (length panel_ID) - Z.of_nat (length panel_beta)
   - distinct_count panel_ID - distinct_count panel_time + 1 = 73)%Z /\
  is_matrix 100 3 panel_X /\ length panel_Y = 100%nat /\
  length panel_ID = 100%nat /\ length panel_time = 100%nat /\
  sigma_hathat_c index_order panel_beta panel_X panel_Y panel_ID panel_time = Ok 0 /\
  (0 <? 0) = false.
Proof.
  repeat split; try reflexivity; try discriminate. repeat constructor.
Qed.

(** Nor is the estimate positive whenever some residual is not zero: the
    square of a small residual underflows to [0.0]. *)
Lemma sigma_hathat_c_underflow :
  sigma_hathat_c index_order [0] [[1]; [1]; [1]; [1]] [1e-200; 0; 0; 0]
    [1; 1; 1; 1]%Z [1; 1; 1; 1]%Z = Ok 0 /\
  (1e-200 =? 0) = false.
Proof. split; reflexivity. Qed.

(** ** IU threshold search: the interval *)

Lemma leb_not_nan_l (a b : float) : (a <=? b) = true -> is_nan a = false.
Proof.
  intros H. apply is_nan_spec. intros E.
  rewrite leb_spec, E in H. discriminate.
Qed.

Lemma py_max_zero_not_nan (t : float) : is_nan (py_max 0 t) = false.
Proof.
  unfold py_max. destruct (0 <? t) eqn:H; [|reflexivity].
  apply (ltb_not_nan_r _ _ H).
Qed.

(** Python's [min] and [max] of two numbers, the first of which is not NaN,
    come in order. *)
Lemma py_min_leb_py_max (a b : float) :
  is_nan a = false -> (py_min a b <=? py_max a b) = true.
Proof.
  intros Ha. unfold py_min, py_max.
  destruct (b <? a) eqn:Hba.
  - rewrite (ltb_asym _ _ Hba). apply ltb_leb. exact Hba.
  - destruct (a <? b) eqn:Hab.
    + apply ltb_leb. exact Hab.
    + apply leb_refl. exact Ha.
Qed.

Lemma py_min_max_swapped (a b : float) :
  (b <? a) = true -> py_min a b = b /\ py_max a b = a.
Proof.
  intros H. unfold py_min, py_max. rewrite H, (ltb_asym _ _ H). split; reflexivity.
Qed.

Lemma py_min_max_in_order (a b : float) :
  (a <? b) = true -> py_min a b = a /\ py_max a b = b.
Proof.
  intros H. unfold py_min, py_max. rewrite H, (ltb_asym _ _ H). split; reflexivity.
Qed.

Lemma lower_end_search_bounded : bounded_search lower_end_search.
Proof.
  intros f lower upper xatol _ H. eexists. split; [reflexivity|]. simpl.
  split; [|exact H]. apply leb_refl. apply (leb_not_nan_l _ _ H).
Qed.

(** After validation the objective of the search is defined at every
    [delta]. *)
Lemma iu_objective_total (norm_cdf : float -> float) (coef sd alpha : float) :
  (coef <? 0) = false -> (sd <=? 0) = false ->
  forall delta, exists y, iu_objective norm_cdf coef sd alpha delta = Ok y.
Proof.
  intros Hc Hsd delta. unfold iu_objective.
  destruct (pfoldnorm_cases norm_cdf coef delta sd)
    as [[Hx E]|[[Hx [Hs E]]|[Hx [Hs [v E]]]]]; try congruence.
  rewrite E. simpl. eexists; reflexivity.
Qed.

Lemma py_min_max_level (a b : float) :
  (b <? a) = false -> (a <? b) = false -> py_min a b = a /\ py_max a b = a.
Proof.
  intros H1 H2. unfold py_min, py_max. rewrite H1, H2. split; reflexivity.
Qed.

(** C7, as the code has it. For every [coef >= 0], [sd > 0] and [alpha] in
    (0,1), [find_min_threshold_iu] hands the minimiser the interval whose
    raw endpoints are [max(0, coef - 10 sd)] and [10 sd], swapped when the
    first exceeds the second, so that the lower end never exceeds the upper
    one, together with an objective that is defined at every [delta]; what
    it returns is the minimiser's [x], and what it raises is what the
    minimiser raises. With a minimiser that answers every such call with a
    point of the bounds it was given, the [delta] returned lies between the
    two ends. *)
Theorem find_min_threshold_iu_interval :
  forall (norm_cdf : float -> float) minimize_scalar (coef sd alpha : float),
    (0 <=? coef) = true -> (0 <? sd) = true ->
    (0 <? alpha) = true -> (alpha <? 1) = true ->
    let lower_r := py_max 0 (coef - 10 * sd) in
    let upper_r := 10 * sd in
    let lower := py_min lower_r upper_r in
    let upper := py_max lower_r upper_r in
    find_min_threshold_iu norm_cdf minimize_scalar coef sd alpha
      = (result <- minimize_scalar (iu_objective norm_cdf coef sd alpha)
                     (lower, upper) 1e-20 ;;
         Ok (x result)) /\
    ((upper_r <? lower_r) = true -> lower = upper_r /\ upper = lower_r) /\
    ((lower_r <? upper_r) = true -> lower = lower_r /\ upper = upper_r) /\
    ((upper_r <? lower_r) = false -> (lower_r <? upper_r) = false ->
     lower = lower_r /\ upper = lower_r) /\
    (lower <=? upper) = true /\
    (forall delta, exists y, iu_objective norm_cdf coef sd alpha delta = Ok y) /\
    (forall r,
        minimize_scalar (iu_objective norm_cdf coef sd alpha) (lower, upper) 1e-20
          = Ok r ->
        find_min_threshold_iu norm_cdf minimize_scalar coef sd alpha = Ok (x r)) /\
    (forall e,
        minimize_scalar (iu_objective norm_cdf coef sd alpha) (lower, upper) 1e-20
          = Raise e ->
        find_min_threshold_iu norm_cdf minimize_scalar coef sd alpha = Raise e) /\
    (bounded_search minimize_scalar ->
     exists delta,
       find_min_threshold_iu norm_cdf minimize_scalar coef sd alpha = Ok delta /\
       (lower <=? delta) = true /\ (delta <=? upper) = true).
Proof.
  intros norm_cdf minimize_scalar coef sd alpha Hc Hsd Ha0 Ha1
         lower_r upper_r lower upper.
  assert (E : find_min_threshold_iu norm_cdf minimize_scalar coef sd alpha
              = (result <- minimize_scalar (iu_objective norm_cdf coef sd alpha)
                             (lower, upper) 1e-20 ;;
                 Ok (x result))).
  { unfold find_min_threshold_iu.
    rewrite (_validate_non_negative_ok _ _ (leb_not_ltb _ _ Hc)),
            (_validate_positive_ok _ _ Hsd),
            (_validate_probability_ok _ _ Ha0 Ha1).
    reflexivity. }
  assert (Hord : (lower <=? upper) = true).
  { apply py_min_leb_py_max. apply py_max_zero_not_nan. }
  pose proof (iu_objective_total norm_cdf coef sd alpha
                (leb_not_ltb _ _ Hc) (ltb_not_leb _ _ Hsd)) as Htotal.
  split; [exact E|].
  split; [apply py_min_max_swapped|].
  split; [apply py_min_max_in_order|].
  split; [apply py_min_max_level|].
  split; [exact Hord|].
  split; [exact Htotal|].
  split; [intros r Hr; rewrite E, Hr; reflexivity|].
  split; [intros e He; rewrite E, He; reflexivity|].
  intros Hsearch.
  destruct (Hsearch (iu_objective norm_cdf coef sd alpha) lower upper 1e-20
              Htotal Hord)
    as [r [Hr [Hlo Hhi]]].
  exists (x r). rewrite E, Hr. simpl. auto.
Qed.

Lemma find_min_threshold_iu_interval_witness :
  py_max 0 (1 - 10 * 0.01) = 0.9 /\ 10 * 0.01 = 0.1 /\
  find_min_threshold_iu step_cdf lower_end_search 1 0.01 0.05
    = (result <- lower_end_search (iu_objective step_cdf 1 0.01 0.05)
                   (0.1, 0.9) 1e-20 ;;
       Ok (x result)) /\
  exists delta,
    find_min_threshold_iu step_cdf lower_end_search 1 0.01 0.05 = Ok delta /\
    (0.1 <=? delta) = true /\ (delta <=? 0.9) = true.
Proof.
  split; [reflexivity|]. split; [reflexivity|].
  split.
  - apply (find_min_threshold_iu_interval step_cdf lower_end_search 1 0.01 0.05);
      reflexivity.
  - apply (find_min_threshold_iu_interval step_cdf lower_end_search 1 0.01 0.05);
      try reflexivity.
    apply lower_end_search_bounded.
Defined.

(** C7 as stated fails where [10 sd] overflows: for [coef = 1] and
    [sd = 1e308] the upper end of the interval is infinite, and a bounded
    minimiser that, as scipy's does, insists on finite bounds raises
    ValueError: an error where the claim has none, and no [delta]. *)
Lemma find_min_threshold_iu_infinite_bound :
  (0 <=? 1) = true /\ (0 <? 1e308) = true /\
  (0 <? 0.05) = true /\ (0.05 <? 1) = true /\
  py_max 0 (1 - 10 * 1e308) = 0 /\ 10 * 1e308 = infinity /\
  find_min_threshold_iu step_cdf checked_lower_end_search 1 1e308 0.05
    = Raise (ValueError optimization_bounds_must_be_finite_scalars).
Proof. repeat split. Qed.

(** * Further properties of the module *)

(** ** The vectorised quantile *)

Section VectorisedQuantileFacts.

Variable norm_ppf : float -> float.
Variable foldnorm_ppf : float -> float -> float -> float -> float.

Let each := qfoldnorm_each norm_ppf foldnorm_ppf.
Let vec := qfoldnorm_vec norm_ppf foldnorm_ppf.
Let quantile := qfoldnorm norm_ppf foldnorm_ppf.

Lemma lengths_agree (p mean sd : list float) :
  (len p =? len mean)%Z && (len mean =? len sd)%Z = true <->
  length p = length mean /\ length mean = length sd.
Proof.
  unfold len. rewrite andb_true_iff, !Z.eqb_eq. lia.
Qed.

Lemma qfoldnorm_each_elementwise (p mean sd r : list float) :
  each p mean sd = Ok r ->
  length r = length p /\
  forall i pi mi si,
    nth_error p i = Some pi -> nth_error mean i = Some mi ->
    nth_error sd i = Some si ->
    exists q, nth_error r i = Some q /\ quantile pi mi si = Ok q.
Proof.
  subst each quantile. revert mean sd r.
  induction p as [|p0 p IH]; intros mean sd r H; simpl in H.
  - injection H as <-. split; [reflexivity|].
    intros [|i] pi mi si Hp; discriminate.
  - destruct mean as [|m0 mean]; [discriminate|].
    destruct sd as [|s0 sd]; [discriminate|].
    destruct (qfoldnorm norm_ppf foldnorm_ppf p0 m0 s0) as [q0|e] eqn:Hq;
      [|discriminate]. simpl in H.
    destruct (qfoldnorm_each norm_ppf foldnorm_ppf p mean sd) as [rest|e] eqn:Hr;
      [|discriminate]. simpl in H. injection H as <-.
    destruct (IH mean sd rest Hr) as [Hlen Hnth]. split; [simpl; congruence|].
    intros [|i] pi mi si Hp Hm Hs; simpl in *.
    + injection Hp as <-. injection Hm as <-. injection Hs as <-.
      exists q0. split; [reflexivity|exact Hq].
    + apply (Hnth i pi mi si); assumption.
Qed.

Lemma qfoldnorm_each_returns (p mean sd : list float) :
  length p = length mean -> length mean = length sd ->
  Forall (fun pi => (0 <? pi) = true /\ (pi <? 1) = true) p ->
  Forall (fun si => (0 <? si) = true) sd ->
  exists r, each p mean sd = Ok r.
Proof.
  subst each. revert mean sd.
  induction p as [|p0 p IH]; intros mean sd Hpm Hms Hp Hs; simpl.
  - eexists; reflexivity.
  - destruct mean as [|m0 mean]; [discriminate|].
    destruct sd as [|s0 sd]; [discriminate|].
    inversion Hp as [|? ? [H0 H1] Hp']; subst.
    inversion Hs as [|? ? Hs0 Hs']; subst.
    destruct (qfoldnorm_returns norm_ppf foldnorm_ppf p0 m0 s0 H0 H1 Hs0)
      as [q0 Hq].
    rewrite Hq. simpl.
    destruct (IH mean sd) as [rest Hr]; simpl in *; try congruence; auto.
    rewrite Hr. simpl. eexists; reflexivity.
Qed.

Lemma qfoldnorm_each_first_failure (p1 m1 s1 r1 p2 m2 s2 : list float)
    (pi mi si : float) (e : exn) :
  each p1 m1 s1 = Ok r1 -> length p1 = length m1 -> length m1 = length s1 ->
  quantile pi mi si = Raise e ->
  each (p1 ++ pi :: p2) (m1 ++ mi :: m2) (s1 ++ si :: s2) = Raise e.
Proof.
  subst each quantile. revert m1 s1 r1.
  induction p1 as [|p0 p1 IH]; intros m1 s1 r1 H Hpm Hms Hq.
  - destruct m1; [|discriminate]. destruct s1; [|discriminate].
    simpl. rewrite Hq. reflexivity.
  - destruct m1 as [|m0 m1]; [discriminate|].
    destruct s1 as [|s0 s1]; [discriminate|]. simpl in *.
    destruct (qfoldnorm norm_ppf foldnorm_ppf p0 m0 s0) as [q0|e0];
      [|discriminate]. simpl in *.
    destruct (qfoldnorm_each norm_ppf foldnorm_ppf p1 m1 s1) as [rest|e1] eqn:Hr;
      [|discriminate].
    rewrite (IH m1 s1 rest); auto.
Qed.

Lemma qfoldnorm_each_opp (p mean sd : list float) :
  each p (map opp mean) sd = each p mean sd.
Proof.
  subst each. revert mean sd.
  induction p as [|p0 p IH]; intros mean sd; simpl; [reflexivity|].
  destruct mean as [|m0 mean]; simpl; [reflexivity|].
  destruct sd as [|s0 sd]; [reflexivity|].
  rewrite qfoldnorm_opp, IH. reflexivity.
Qed.

End VectorisedQuantileFacts.

(** X1. [qfoldnorm_vec] raises its own length error exactly when the three
    arrays are not equally long, reporting the three lengths; no element is
    looked at then, so the error is the same whatever the arrays hold. *)
Theorem qfoldnorm_vec_length_error :
  forall norm_ppf foldnorm_ppf (p mean sd : list float),
    (length p <> length mean \/ length mean <> length sd) <->
    qfoldnorm_vec norm_ppf foldnorm_ppf p mean sd
      = inl (arrays_must_have_equal_length (len p) (len mean) (len sd)).
Proof.
  intros norm_ppf foldnorm_ppf p mean sd. unfold qfoldnorm_vec.
  destruct ((len p =? len mean)%Z && (len mean =? len sd)%Z) eqn:E; simpl.
  - apply lengths_agree in E. split; [lia|].
    destruct (qfoldnorm_each _ _ p mean sd); discriminate.
  - split; [reflexivity|]. intros _.
    destruct (Nat.eq_dec (length p) (length mean)) as [H1|H1]; [|auto].
    destruct (Nat.eq_dec (length mean) (length sd)) as [H2|H2]; [|auto].
    assert (T : (len p =? len mean)%Z && (len mean =? len sd)%Z = true)
      by (apply lengths_agree; auto).
    congruence.
Qed.

(** X2. On equally long arrays whose probabilities lie in (0,1) and whose
    scales are positive, [qfoldnorm_vec] returns an array as long as the
    inputs whose [i]-th entry is [qfoldnorm(p[i], mean[i], sd[i])]. *)
Theorem qfoldnorm_vec_elementwise :
  forall norm_ppf foldnorm_ppf (p mean sd : list float),
    length p = length mean -> length mean = length sd ->
    Forall (fun pi => (0 <? pi) = true /\ (pi <? 1) = true) p ->
    Forall (fun si => (0 <? si) = true) sd ->
    exists r,
      qfoldnorm_vec norm_ppf foldnorm_ppf p mean sd = inr r /\
      length r = length p /\
      forall i pi mi si,
        nth_error p i = Some pi -> nth_error mean i = Some mi ->
        nth_error sd i = Some si ->
        exists q, nth_error r i = Some q /\
                  qfoldnorm norm_ppf foldnorm_ppf pi mi si = Ok q.
Proof.
  intros norm_ppf foldnorm_ppf p mean sd Hpm Hms Hp Hs.
  destruct (qfoldnorm_each_returns norm_ppf foldnorm_ppf p mean sd Hpm Hms Hp Hs)
    as [r Hr].
  exists r. split.
  - unfold qfoldnorm_vec.
    replace ((len p =? len mean)%Z && (len mean =? len sd)%Z) with true
      by (symmetry; apply lengths_agree; auto).
    simpl. rewrite Hr. reflexivity.
  - apply (qfoldnorm_each_elementwise norm_ppf foldnorm_ppf p mean sd r Hr).
Qed.

Lemma qfoldnorm_vec_elementwise_witness :
  exists r,
    qfoldnorm_vec plain_ppf plain_foldnorm_ppf
      [0.05; 0.5; 0.95] [0.2; 0; 0.1] [0.05; 1; 0.03] = inr r /\
    length r = 3%nat.
Proof.
  destruct (qfoldnorm_vec_elementwise plain_ppf plain_foldnorm_ppf
              [0.05; 0.5; 0.95] [0.2; 0; 0.1] [0.05; 1; 0.03]
              eq_refl eq_refl) as [r [Hr [Hlen _]]].
  - repeat constructor.
  - repeat constructor.
  - exists r. split; [exact Hr|exact Hlen].
Defined.

(** X3. The loop of [qfoldnorm_vec] stops at the first element that
    [qfoldnorm] refuses: when the elements before position [i] are accepted
    and element [i] raises [e], the whole call raises [e], whatever follows. *)
Theorem qfoldnorm_vec_first_failure :
  forall norm_ppf foldnorm_ppf
         (p1 m1 s1 r1 p2 m2 s2 : list float) (pi mi si : float) (e : exn),
    length p1 = length m1 -> length m1 = length s1 ->
    length p2 = length m2 -> length m2 = length s2 ->
    qfoldnorm_each norm_ppf foldnorm_ppf p1 m1 s1 = Ok r1 ->
    qfoldnorm norm_ppf foldnorm_ppf pi mi si = Raise e ->
    qfoldnorm_vec norm_ppf foldnorm_ppf
      (p1 ++ pi :: p2) (m1 ++ mi :: m2) (s1 ++ si :: s2) = inl (in_element e).
Proof.
  intros norm_ppf foldnorm_ppf p1 m1 s1 r1 p2 m2 s2 pi mi si e
         H1 H2 H3 H4 Hr Hq.
  unfold qfoldnorm_vec.
  replace ((len (p1 ++ pi :: p2) =? len (m1 ++ mi :: m2))%Z &&
           (len (m1 ++ mi :: m2) =? len (s1 ++ si :: s2))%Z) with true.
  - simpl.
    rewrite (qfoldnorm_each_first_failure norm_ppf foldnorm_ppf
               p1 m1 s1 r1 p2 m2 s2 pi mi si e Hr H1 H2 Hq).
    reflexivity.
  - symmetry. apply lengths_agree. rewrite !length_app. simpl. lia.
Qed.

Lemma qfoldnorm_vec_first_failure_witness :
  qfoldnorm_vec plain_ppf plain_foldnorm_ppf
    ([0.5] ++ 1.5 :: [2]) ([0] ++ 0 :: [0]) ([1] ++ 1 :: [-1])
  = inl (in_element (ValueError (must_be_strictly_between_0_and_1 "p" 1.5))).
Proof.
  apply (qfoldnorm_vec_first_failure plain_ppf plain_foldnorm_ppf
           [0.5] [0] [1] [0.5] [2] [0] [-1] 1.5 0 1); reflexivity.
Defined.

(** X4. [qfoldnorm_vec] is blind to the signs of the locations: negating
    every entry of [mean] changes neither the array returned nor the error
    raised. *)
Theorem qfoldnorm_vec_sign_symmetry :
  forall norm_ppf foldnorm_ppf (p mean sd : list float),
    qfoldnorm_vec norm_ppf foldnorm_ppf p (map opp mean) sd
    = qfoldnorm_vec norm_ppf foldnorm_ppf p mean sd.
Proof.
  intros norm_ppf foldnorm_ppf p mean sd. unfold qfoldnorm_vec.
  rewrite qfoldnorm_each_opp. unfold len. rewrite length_map. reflexivity.
Qed.

(** ** More on the folded normal functions *)

(** X5. [pfoldnorm] sees the location only through its absolute value:
    [pfoldnorm(x, -m, s)] and [pfoldnorm(x, m, s)] give the same value, or
    raise the same error, in the step-function branch and in the two-term
    branch alike. *)
Theorem pfoldnorm_sign_symmetry :
  forall (norm_cdf : float -> float) (x m s : float),
    pfoldnorm norm_cdf x (- m) s = pfoldnorm norm_cdf x m s.
Proof.
  intros norm_cdf x m s. unfold pfoldnorm. rewrite abs_opp. reflexivity.
Qed.

Lemma py_max_zero_nonneg (r : float) : (0 <=? py_max 0 r) = true.
Proof.
  unfold py_max. destruct (0 <? r) eqn:H; [apply ltb_leb; exact H|reflexivity].
Qed.

(** X6. In the extreme-shape branch ([sd >= 1e-15] and [|mean|/sd > 1e10])
    [qfoldnorm] returns [max(0, |mean| + norm.ppf(p) * sd)], and that value is
    a number [>= 0] whatever [norm.ppf] answers: a negative or NaN sum is
    replaced by [0.0]. *)
Theorem qfoldnorm_extreme_shape :
  forall (norm_ppf : float -> float)
         (foldnorm_ppf : float -> float -> float -> float -> float)
         (p m s : float),
    (0 <? p) = true -> (p <? 1) = true ->
    (1e-15 <=? s) = true -> (1e10 <? abs m / s) = true ->
    exists v,
      qfoldnorm norm_ppf foldnorm_ppf p m s = Ok v /\
      v = py_max 0 (abs m + norm_ppf p * s) /\
      (0 <=? v) = true /\ is_nan v = false.
Proof.
  intros norm_ppf foldnorm_ppf p m s H0 H1 Hs Hc.
  change 1e-15 with _FOLDNORM_SD_MIN in Hs.
  change 1e10 with _FOLDNORM_C_MAX in Hc.
  exists (py_max 0 (abs m + norm_ppf p * s)).
  split; [|split; [reflexivity|split]].
  - unfold qfoldnorm, _validate_positive.
    rewrite (_validate_probability_ok _ _ H0 H1).
    rewrite (leb_positive_not_leb_zero _ _ _ _ _FOLDNORM_SD_MIN_spec Hs).
    simpl. rewrite (leb_not_ltb _ _ Hs), Hc. reflexivity.
  - apply py_max_zero_nonneg.
  - apply py_max_zero_not_nan.
Qed.

Lemma qfoldnorm_extreme_shape_witness :
  exists v,
    qfoldnorm (fun _ => nan) plain_foldnorm_ppf 0.5 (-1e12) 1 = Ok v /\
    v = py_max 0 (abs (-1e12) + nan * 1) /\
    (0 <=? v) = true /\ is_nan v = false.
Proof.
  apply (qfoldnorm_extreme_shape (fun _ => nan) plain_foldnorm_ppf 0.5 (-1e12) 1);
    reflexivity.
Defined.

Lemma nan_not_leb_l (a b : float) : is_nan a = true -> (a <=? b) = false.
Proof. intros H. rewrite leb_spec, (is_nan_true _ H). reflexivity. Qed.

Lemma div_nan_is_nan (a b : float) : is_nan b = true -> is_nan (a / b) = true.
Proof.
  intros H. unfold is_nan. rewrite eqb_spec, div_spec, (is_nan_true _ H).
  replace (SF64div (Prim2SF a) S754_nan) with S754_nan
    by (destruct (Prim2SF a); reflexivity).
  reflexivity.
Qed.

(** X7. A NaN scale is not rejected: [_validate_positive] tests [sd <= 0],
    which is false for NaN, and neither special branch fires, so for a valid
    [p] [qfoldnorm] hands the NaN shape and scale to [foldnorm.ppf], and for
    [x >= 0] [pfoldnorm] returns the clipped two-term formula. *)
Theorem foldnorm_nan_scale_not_rejected :
  forall (norm_cdf norm_ppf : float -> float)
         (foldnorm_ppf : float -> float -> float -> float -> float)
         (p x m s : float),
    is_nan s = true ->
    ((0 <? p) = true -> (p <? 1) = true ->
     qfoldnorm norm_ppf foldnorm_ppf p m s = Ok (foldnorm_ppf p (abs m / s) 0 s)) /\
    ((x <? 0) = false ->
     pfoldnorm norm_cdf x m s = Ok (np_clip (two_term norm_cdf x m s) 0 1)).
Proof.
  intros norm_cdf norm_ppf foldnorm_ppf p x m s Hs. split.
  - intros H0 H1. unfold qfoldnorm, _validate_positive.
    rewrite (_validate_probability_ok _ _ H0 H1), (nan_not_leb_l _ _ Hs).
    simpl. rewrite (nan_not_ltb_l _ _ Hs).
    rewrite (nan_not_ltb_r _ _ (div_nan_is_nan (abs m) s Hs)). reflexivity.
  - intros Hx. unfold pfoldnorm, _validate_positive.
    rewrite (_validate_non_negative_ok _ _ Hx), (nan_not_leb_l _ _ Hs).
    simpl. rewrite (nan_not_ltb_l _ _ Hs). reflexivity.
Qed.

Lemma foldnorm_nan_scale_not_rejected_witness :
  qfoldnorm plain_ppf plain_foldnorm_ppf 0.5 0.2 nan
    = Ok (plain_foldnorm_ppf 0.5 (abs 0.2 / nan) 0 nan) /\
  pfoldnorm step_cdf 0.1 0.2 nan = Ok (np_clip (two_term step_cdf 0.1 0.2 nan) 0 1).
Proof.
  split.
  - apply (foldnorm_nan_scale_not_rejected step_cdf plain_ppf plain_foldnorm_ppf
             0.5 0.1 0.2 nan); reflexivity.
  - apply (foldnorm_nan_scale_not_rejected step_cdf plain_ppf plain_foldnorm_ppf
             0.5 0.1 0.2 nan); reflexivity.
Defined.

(** ** More on constrained OLS *)

(** X8. [constrained_ols] checks [delta] first and [no_placebos] second:
    [delta <= 0] raises the positivity error whatever the other arguments,
    and otherwise [no_placebos < 1] raises its own error. Either way the
    log of events is empty: no optimizer is run and no warning issued. *)
Theorem constrained_ols_validation :
  forall (np : numpy) minimize (Y : list float) (X : list (list float)) (delta : float)
         (k : Z) (start_val : list float) (max_unconstr_coef : option float),
    ((delta <=? 0) = true ->
     constrained_ols np minimize Y X delta k start_val max_unconstr_coef
       = ([], Raise (ValueError (must_be_strictly_positive "delta" delta)))) /\
    ((delta <=? 0) = false -> (k < 1)%Z ->
     constrained_ols np minimize Y X delta k start_val max_unconstr_coef
       = ([], Raise (ValueError (no_placebos_must_be_at_least_1 k)))).
Proof.
  intros np minimize Y X delta k start_val muc.
  unfold constrained_ols, _validate_positive. split.
  - intros H. rewrite H. reflexivity.
  - intros H Hk. rewrite H.
    replace (k <? 1)%Z with true by (symmetry; apply Z.ltb_lt; exact Hk).
    reflexivity.
Qed.

(** X9. Off the fast path [constrained_ols] runs COBYLA from [start_val];
    only when that run reports failure does it run COBYLA once more, again
    from [start_val] and with the tighter options. It returns the point and
    the success flag of the last run. A constraint violation above [1e-8] at
    that point adds a warning to the log and changes nothing else. *)
Theorem constrained_ols_retry :
  forall (np : numpy) minimize (Y : list float) (X : list (list float)) (delta : float)
         (k : Z) (start_val : list float) (max_unconstr_coef : option float)
         (m c : float) (r1 r : OptimizeResult (list float)),
    (1 <= k)%Z -> (0 <? delta) = true ->
    fast_path_value start_val k max_unconstr_coef = Ok m ->
    (delta <=? m) = false ->
    minimize (objective np Y X) start_val (constraint delta k) first_run_options
      = Ok r1 ->
    (if success r1 then r = r1
     else minimize (objective np Y X) start_val (constraint delta k)
            second_run_options = Ok r) ->
    constraint delta k (x r) = Ok c ->
    constrained_ols np minimize Y X delta k start_val max_unconstr_coef
      = (ev_minimize start_val first_run_options
         :: (if success r1 then []
             else [ev_minimize start_val second_run_options])
         ++ (if 1e-8 <? - c then [ev_warn (- c)] else []),
         Ok (x r, success r)).
Proof.
  intros np minimize Y X delta k start_val muc m c r1 r Hk Hd Hm Hlt Hr1 Hr Hc.
  unfold constrained_ols.
  rewrite (_validate_positive_ok _ _ Hd).
  destruct (k <? 1)%Z eqn:Hk1; [apply Z.ltb_lt in Hk1; lia|].
  assert (E : (match muc with
               | Some given => ret given
               | None => lift (np_max (np_abs (slice_to start_val k)))
               end) = ([], Ok m)).
  { unfold fast_path_value in Hm.
    destruct muc as [given|]; [injection Hm as ->; reflexivity|].
    rewrite Hm. reflexivity. }
  rewrite E. unfold lbind at 1 2 3. simpl. rewrite Hlt.
  unfold run_minimize, lbind, tell, lift. simpl.
  fold first_run_options second_run_options. rewrite Hr1. simpl.
  destruct (success r1) eqn:Hs1; simpl.
  - subst r. rewrite Hc. simpl. rewrite Hs1.
    destruct (1e-8 <? - c); simpl; reflexivity.
  - rewrite Hr. simpl. rewrite Hc. simpl.
    destruct (1e-8 <? - c); simpl; reflexivity.
Qed.

Lemma constrained_ols_retry_witness :
  constrained_ols index_order stay_put [1; 2] [[1; 0]; [0; 1]] 0.5 1 [0.05; 0.03] None
    = ([ev_minimize [0.05; 0.03] first_run_options;
        ev_minimize [0.05; 0.03] second_run_options;
        ev_warn (- (0.05 - 0.5))],
       Ok ([0.05; 0.03], false)) /\
  constrained_ols index_order succeed_at_once [1; 2] [[1; 0]; [0; 1]] 0.5 1 [0.05; 0.03] None
    = ([ev_minimize [0.05; 0.03] first_run_options],
       Ok ([0.05 + 1; 0.03 + 1], true)).
Proof.
  split.
  - apply (constrained_ols_retry index_order stay_put [1; 2] [[1; 0]; [0; 1]] 0.5 1
             [0.05; 0.03] None 0.05 (0.05 - 0.5)
             {| x := [0.05; 0.03]; success := false |}
             {| x := [0.05; 0.03]; success := false |});
      first [reflexivity | discriminate].
  - apply (constrained_ols_retry index_order succeed_at_once [1; 2] [[1; 0]; [0; 1]] 0.5 1
             [0.05; 0.03] None 0.05 (0.05 + 1 - 0.5)
             {| x := [0.05 + 1; 0.03 + 1]; success := true |}
             {| x := [0.05 + 1; 0.03 + 1]; success := true |});
      first [reflexivity | discriminate].
Defined.

(** ** More on the residual variance *)

(** X10. [sigma_hathat_c] looks at the panel identifiers only through
    [len(ID)], the number of distinct identifiers and, for a non-empty
    [time], the number of distinct periods: two panels that agree on these
    three numbers give the same estimate or the same error. The length of
    [time] is never compared with the length of [ID]. *)
Theorem sigma_hathat_c_panel_counts_only :
  forall (np : numpy) (parameter : list float) (X : list (list float))
         (Y : list float)
         (ID time ID' time' : list Z),
    length ID = length ID' -> distinct_count ID = distinct_count ID' ->
    time <> [] -> time' <> [] -> distinct_count time = distinct_count time' ->
    sigma_hathat_c np parameter X Y ID time = sigma_hathat_c np parameter X Y ID' time'.
Proof.
  intros np parameter X Y ID time ID' time' HN Hn Ht Ht' HT.
  unfold sigma_hathat_c. rewrite !np_unique_distinct_count, Hn, HT.
  replace (len ID') with (len ID) by (unfold len; congruence).
  replace (len time =? 0)%Z with false
    by (symmetry; apply Z.eqb_neq; unfold len; destruct time; simpl; [congruence|lia]).
  replace (len time' =? 0)%Z with false
    by (symmetry; apply Z.eqb_neq; unfold len; destruct time'; simpl; [congruence|lia]).
  reflexivity.
Qed.

Lemma sigma_hathat_c_panel_counts_only_witness :
  sigma_hathat_c index_order [1] [[1]; [2]; [3]; [4]; [5]; [6]] [1; 2; 3; 5; 5; 6]
    [1; 1; 1; 2; 2; 2]%Z [1; 2; 3; 1; 2; 3]%Z
  = sigma_hathat_c index_order [1] [[1]; [2]; [3]; [4]; [5]; [6]] [1; 2; 3; 5; 5; 6]
      [7; 9; 9; 9; 9; 9]%Z [4; 5; 6; 6]%Z.
Proof.
  apply sigma_hathat_c_panel_counts_only;
    first [reflexivity | discriminate].
Defined.

(** ** More on the threshold searches *)

Section PenaltySigns.

Variables prec emax : Z.

Lemma SFmul_positive_not_negative (mk : positive) (ek : Z) (b : spec_float) :
  SFnot_negative b ->
  SFnot_negative (SFmul prec emax (S754_finite false mk ek) b).
Proof.
  destruct b as [sb|sb| |sb mb eb]; simpl; intros Hb; subst; auto.
  apply SFsign_false_not_negative. apply binary_round_aux_sign.
Qed.

Lemma SFsub_self (s : bool) (m : positive) (e : Z) :
  SFsub prec emax (S754_finite s m e) (S754_finite s m e) = S754_zero false.
Proof. simpl. rewrite Z.sub_diag. reflexivity. Qed.

End PenaltySigns.

Lemma SFin_open_unit_finite (c : spec_float) (m1 : positive) (e1 : Z) :
  SFltb (S754_zero false) c = true ->
  SFltb c (S754_finite false m1 e1) = true ->
  exists m e, c = S754_finite false m e.
Proof.
  unfold SFltb.
  destruct c as [[ | ]|[ | ]| |[ | ] m e]; simpl; try congruence.
  intros _ _. eexists; eexists; reflexivity.
Qed.

Lemma sub_self_in_open_unit (a : float) :
  (0 <? a) = true -> (a <? 1) = true -> a - a = 0.
Proof.
  rewrite !ltb_spec, Prim2SF_zero, Prim2SF_one. intros H0 H1.
  destruct (SFin_open_unit_finite _ _ _ H0 H1) as [m [e E]].
  apply Prim2SF_inj. rewrite sub_spec, E, Prim2SF_zero. apply SFsub_self.
Qed.

Lemma scaled_square_not_negative (k d : float) :
  (exists mk ek, Prim2SF k = S754_finite false mk ek) ->
  not_negative (k * (d * d)).
Proof.
  intros [mk [ek Hk]]. unfold not_negative. rewrite mul_spec, Hk.
  apply SFmul_positive_not_negative. apply square_not_negative.
Qed.

(** X11. Once [coef] and [sd] have passed validation, the objectives of the
    IU and the Mean search are defined at every margin [delta]; their value
    is never negative, and it is exactly [0.0] where the folded-normal CDF
    equals [alpha]: a penalty that vanishes at the target. *)
Theorem search_objectives_penalty :
  forall (norm_cdf : float -> float) (coef sd alpha delta : float),
    (coef <? 0) = false -> (sd <=? 0) = false ->
    exists p yi ym,
      pfoldnorm norm_cdf coef delta sd = Ok p /\
      iu_objective norm_cdf coef sd alpha delta = Ok yi /\
      mean_objective norm_cdf coef sd alpha delta = Ok ym /\
      (yi <? 0) = false /\ (ym <? 0) = false /\
      ((0 <? alpha) = true -> (alpha <? 1) = true -> p = alpha ->
       yi = 0 /\ ym = 0).
Proof.
  intros norm_cdf coef sd alpha delta Hc Hsd.
  destruct (pfoldnorm_cases norm_cdf coef delta sd)
    as [[Hx E]|[[Hx [Hs E]]|[Hx [Hs [p E]]]]]; try congruence.
  exists p, (1e20 * ((p - alpha) * (p - alpha))),
         (1e100 * ((p - alpha) * (p - alpha))).
  unfold iu_objective, mean_objective. rewrite E. simpl.
  repeat split.
  - apply not_negative_compare. apply scaled_square_not_negative.
    eexists; eexists; reflexivity.
  - apply not_negative_compare. apply scaled_square_not_negative.
    eexists; eexists; reflexivity.
  - subst p. rewrite (sub_self_in_open_unit alpha) by assumption. reflexivity.
  - subst p. rewrite (sub_self_in_open_unit alpha) by assumption. reflexivity.
Qed.

Lemma search_objectives_penalty_witness :
  exists p yi ym,
    pfoldnorm step_cdf 0.1 0.2 0.05 = Ok p /\
    iu_objective step_cdf 0.1 0.05 0.05 0.2 = Ok yi /\
    mean_objective step_cdf 0.1 0.05 0.05 0.2 = Ok ym /\
    (yi <? 0) = false /\ (ym <? 0) = false /\
    ((0 <? 0.05) = true -> (0.05 <? 1) = true -> p = 0.05 -> yi = 0 /\ ym = 0).
Proof.
  apply (search_objectives_penalty step_cdf 0.1 0.05 0.05 0.2); reflexivity.
Defined.

Lemma validation_cases (coef sd alpha : float) :
  ((coef <? 0) = true /\
   (_validate_non_negative coef "coef" ;;
    _validate_positive sd "sd" ;;
    _validate_probability alpha "alpha")
   = Raise (ValueError (must_be_non_negative "coef" coef))) \/
  ((coef <? 0) = false /\ (sd <=? 0) = true /\
   (_validate_non_negative coef "coef" ;;
    _validate_positive sd "sd" ;;
    _validate_probability alpha "alpha")
   = Raise (ValueError (must_be_strictly_positive "sd" sd))) \/
  ((coef <? 0) = false /\ (sd <=? 0) = false /\
   (0 <? alpha) && (alpha <? 1) = false /\
   (_validate_non_negative coef "coef" ;;
    _validate_positive sd "sd" ;;
    _validate_probability alpha "alpha")
   = Raise (ValueError (must_be_strictly_between_0_and_1 "alpha" alpha))) \/
  ((coef <? 0) = false /\ (sd <=? 0) = false /\
   (0 <? alpha) && (alpha <? 1) = true /\
   (_validate_non_negative coef "coef" ;;
    _validate_positive sd "sd" ;;
    _validate_probability alpha "alpha") = Ok tt).
Proof.
  unfold _validate_non_negative, _validate_positive, _validate_probability.
  destruct (coef <? 0); simpl; [left; split; reflexivity|].
  right. destruct (sd <=? 0); simpl; [left; repeat split|].
  right. destruct ((0 <? alpha) && (alpha <? 1)); simpl;
    [right|left]; repeat split.
Qed.

(** How the two bounded searches begin: the three checks, then the rest. *)
Lemma find_min_threshold_iu_unfold norm_cdf minimize_scalar (coef sd alpha : float) :
  find_min_threshold_iu norm_cdf minimize_scalar coef sd alpha =
    ((_validate_non_negative coef "coef" ;;
      _validate_positive sd "sd" ;;
      _validate_probability alpha "alpha") ;;
     result <- minimize_scalar (iu_objective norm_cdf coef sd alpha)
                 (py_min (py_max 0 (coef - 10 * sd)) (10 * sd),
                  py_max (py_max 0 (coef - 10 * sd)) (10 * sd)) 1e-20 ;;
     Ok (x result)).
Proof.
  unfold find_min_threshold_iu.
  destruct (_validate_non_negative coef "coef"); simpl; [|reflexivity].
  destruct (_validate_positive sd "sd"); simpl; [|reflexivity].
  destruct (_validate_probability alpha "alpha"); reflexivity.
Qed.

Lemma find_min_threshold_mean_unfold norm_cdf minimize_scalar (coef sd alpha : float) :
  find_min_threshold_mean norm_cdf minimize_scalar coef sd alpha =
    ((_validate_non_negative coef "coef" ;;
      _validate_positive sd "sd" ;;
      _validate_probability alpha "alpha") ;;
     result <- minimize_scalar (mean_objective norm_cdf coef sd alpha)
                 (py_max 0 (coef - 4 * sd), coef + 4 * sd) 1e-25 ;;
     Ok (x result)).
Proof.
  unfold find_min_threshold_mean.
  destruct (_validate_non_negative coef "coef"); simpl; [|reflexivity].
  destruct (_validate_positive sd "sd"); simpl; [|reflexivity].
  destruct (_validate_probability alpha "alpha"); reflexivity.
Qed.

Lemma iu_returns_within norm_cdf minimize_scalar (coef sd alpha : float) :
  bounded_search minimize_scalar ->
  (coef <? 0) = false -> (sd <=? 0) = false ->
  (0 <? alpha) && (alpha <? 1) = true ->
  exists delta,
    find_min_threshold_iu norm_cdf minimize_scalar coef sd alpha = Ok delta /\
    (py_min (py_max 0 (coef - 10 * sd)) (10 * sd) <=? delta) = true /\
    (delta <=? py_max (py_max 0 (coef - 10 * sd)) (10 * sd)) = true.
Proof.
  intros Hsearch Hc Hsd Ha. rewrite find_min_threshold_iu_unfold.
  destruct (validation_cases coef sd alpha)
    as [[H _]|[[_ [H _]]|[[_ [_ [H _]]]|[_ [_ [_ E]]]]]]; try congruence.
  rewrite E. simpl.
  destruct (Hsearch (iu_objective norm_cdf coef sd alpha) _ _ 1e-20
              (iu_objective_total norm_cdf coef sd alpha Hc Hsd)
              (py_min_leb_py_max (py_max 0 (coef - 10 * sd)) (10 * sd)
                 (py_max_zero_not_nan (coef - 10 * sd))))
    as [r [Hr [Hlo Hhi]]].
  exists (x r). rewrite Hr. simpl. auto.
Qed.

(** X12. With a bounded minimiser, [find_min_threshold_iu] raises exactly
    when [coef < 0], [sd <= 0] or [alpha] is not strictly between 0 and 1.
    The error is of the InvalidArgument kind and does not depend on
    [norm.cdf] or on the minimiser: it is raised before the search starts. A
    NaN [coef] or [sd] passes these checks. *)
Theorem find_min_threshold_iu_errors :
  forall norm_cdf minimize_scalar (coef sd alpha : float),
    bounded_search minimize_scalar ->
    ((exists e, find_min_threshold_iu norm_cdf minimize_scalar coef sd alpha
                = Raise e) <->
     ((coef <? 0) = true \/ (sd <=? 0) = true \/
      (0 <? alpha) && (alpha <? 1) = false)) /\
    (forall e,
       find_min_threshold_iu norm_cdf minimize_scalar coef sd alpha = Raise e ->
       InvalidArgument e /\
       forall norm_cdf' minimize_scalar',
         find_min_threshold_iu norm_cdf' minimize_scalar' coef sd alpha = Raise e).
Proof.
  intros norm_cdf minimize_scalar coef sd alpha Hsearch.
  destruct (validation_cases coef sd alpha)
    as [[Hc E]|[[Hc [Hs E]]|[[Hc [Hs [Ha E]]]|[Hc [Hs [Ha E]]]]]].
  1-3: split;
    [ split; [auto|]; intros _; rewrite find_min_threshold_iu_unfold, E;
      eexists; reflexivity
    | intros e He; rewrite find_min_threshold_iu_unfold, E in He;
      simpl in He; injection He as <-; split; [exact I|];
      intros norm_cdf' minimize_scalar';
      rewrite find_min_threshold_iu_unfold, E; reflexivity ].
  destruct (iu_returns_within norm_cdf minimize_scalar coef sd alpha
              Hsearch Hc Hs Ha) as [delta [Hd _]].
  split.
  - split.
    + intros [e He]. congruence.
    + intros [H|[H|H]]; congruence.
  - intros e He. congruence.
Qed.

Lemma find_min_threshold_iu_errors_witness :
  ((exists e, find_min_threshold_iu step_cdf lower_end_search (-1) 0.05 0.05
              = Raise e) <->
   ((-1 <? 0) = true \/ (0.05 <=? 0) = true \/
    (0 <? 0.05) && (0.05 <? 1) = false)) /\
  (forall e,
     find_min_threshold_iu step_cdf lower_end_search (-1) 0.05 0.05 = Raise e ->
     InvalidArgument e /\
     forall norm_cdf' minimize_scalar',
       find_min_threshold_iu norm_cdf' minimize_scalar' (-1) 0.05 0.05 = Raise e).
Proof.
  apply (find_min_threshold_iu_errors step_cdf lower_end_search (-1) 0.05 0.05
           lower_end_search_bounded).
Defined.

Section ProductSigns.

Variables prec emax : Z.

Lemma SFmul_positive_sign (mk : positive) (ek : Z) (b : spec_float) :
  SFleb b (S754_zero false) = false ->
  SFsign_or_nan false (SFmul prec emax (S754_finite false mk ek) b).
Proof.
  unfold SFleb.
  destruct b as [[ | ]|[ | ]| |[ | ] mb eb]; simpl; try congruence; intros _;
    try exact I; try reflexivity.
  apply binary_round_aux_sign.
Qed.

End ProductSigns.

Lemma sign_false_nonneg (a : float) :
  SFsign_or_nan false (Prim2SF a) -> is_nan a = false -> (0 <=? a) = true.
Proof.
  intros Hs Hn. apply is_nan_spec in Hn.
  rewrite leb_spec, Prim2SF_zero. unfold SFleb.
  destruct (Prim2SF a) as [s|s| |s m e]; simpl in *; subst;
    try reflexivity; congruence.
Qed.

Lemma SFleb_zero_trans (a b : spec_float) :
  SFleb (S754_zero false) a = true -> SFleb a b = true ->
  SFleb (S754_zero false) b = true.
Proof.
  unfold SFleb.
  destruct a as [[ | ]|[ | ]| |[ | ] ma ea], b as [[ | ]|[ | ]| |[ | ] mb eb];
    simpl; congruence.
Qed.

Lemma leb_zero_trans (a b : float) :
  (0 <=? a) = true -> (a <=? b) = true -> (0 <=? b) = true.
Proof. rewrite !leb_spec, Prim2SF_zero. apply SFleb_zero_trans. Qed.

Lemma ten_times_sign (sd : float) :
  (sd <=? 0) = false -> SFsign_or_nan false (Prim2SF (10 * sd)).
Proof.
  rewrite leb_spec, Prim2SF_zero, mul_spec. intros H.
  assert (E : exists m e, Prim2SF 10 = S754_finite false m e)
    by (eexists; eexists; reflexivity).
  destruct E as [m [e E]]. rewrite E. apply SFmul_positive_sign. exact H.
Qed.

Lemma iu_lower_end_nonneg (coef sd : float) :
  (sd <=? 0) = false ->
  (0 <=? py_min (py_max 0 (coef - 10 * sd)) (10 * sd)) = true.
Proof.
  intros Hsd. unfold py_min at 1.
  destruct (10 * sd <? py_max 0 (coef - 10 * sd)) eqn:H.
  - apply sign_false_nonneg; [apply ten_times_sign; exact Hsd|].
    apply (ltb_not_nan_l _ _ H).
  - apply py_max_zero_nonneg.
Qed.

(** X13. With a bounded minimiser, the margin that [find_min_threshold_iu]
    returns for inputs that pass its checks is never negative: both ends of
    the search interval, swapped or not, are [>= 0]. *)
Theorem find_min_threshold_iu_nonneg :
  forall norm_cdf minimize_scalar (coef sd alpha : float),
    bounded_search minimize_scalar ->
    (coef <? 0) = false -> (sd <=? 0) = false ->
    (0 <? alpha) = true -> (alpha <? 1) = true ->
    exists delta,
      find_min_threshold_iu norm_cdf minimize_scalar coef sd alpha = Ok delta /\
      (0 <=? delta) = true.
Proof.
  intros norm_cdf minimize_scalar coef sd alpha Hsearch Hc Hsd Ha0 Ha1.
  destruct (iu_returns_within norm_cdf minimize_scalar coef sd alpha
              Hsearch Hc Hsd) as [delta [Hd [Hlo _]]].
  - rewrite Ha0, Ha1. reflexivity.
  - exists delta. split; [exact Hd|].
    apply (leb_zero_trans _ _ (iu_lower_end_nonneg coef sd Hsd) Hlo).
Qed.

Lemma find_min_threshold_iu_nonneg_witness :
  exists delta,
    find_min_threshold_iu step_cdf lower_end_search 1 0.01 0.05 = Ok delta /\
    (0 <=? delta) = true.
Proof.
  apply (find_min_threshold_iu_nonneg step_cdf lower_end_search 1 0.01 0.05
           lower_end_search_bounded); reflexivity.
Defined.

Lemma mean_objective_total (norm_cdf : float -> float)
    (coef sd alpha delta : float) :
  (coef <? 0) = false -> (sd <=? 0) = false ->
  exists y, mean_objective norm_cdf coef sd alpha delta = Ok y.
Proof.
  intros Hc Hsd. unfold mean_objective.
  destruct (pfoldnorm_cases norm_cdf coef delta sd)
    as [[Hx E]|[[Hx [Hs E]]|[Hx [Hs [v E]]]]]; try congruence.
  rewrite E. simpl. eexists; reflexivity.
Qed.

(** X14. [find_min_threshold_mean] makes the same three checks as the IU
    search, in the same order and before the search starts, and then hands
    the minimiser the interval [(max(0, coef - 4 sd), coef + 4 sd)] as
    computed, never swapped. When that interval is in order, a bounded
    minimiser gives a margin inside it, which is never negative. *)
Theorem find_min_threshold_mean_interval :
  forall norm_cdf minimize_scalar (coef sd alpha : float),
    bounded_search minimize_scalar ->
    (((coef <? 0) = true \/ (sd <=? 0) = true \/
      (0 <? alpha) && (alpha <? 1) = false) ->
     exists e,
       InvalidArgument e /\
       forall norm_cdf' minimize_scalar',
         find_min_threshold_mean norm_cdf' minimize_scalar' coef sd alpha
           = Raise e) /\
    ((coef <? 0) = false -> (sd <=? 0) = false ->
     (0 <? alpha) && (alpha <? 1) = true ->
     find_min_threshold_mean norm_cdf minimize_scalar coef sd alpha
       = (result <- minimize_scalar (mean_objective norm_cdf coef sd alpha)
                      (py_max 0 (coef - 4 * sd), coef + 4 * sd) 1e-25 ;;
          Ok (x result)) /\
     ((py_max 0 (coef - 4 * sd) <=? coef + 4 * sd) = true ->
      exists delta,
        find_min_threshold_mean norm_cdf minimize_scalar coef sd alpha
          = Ok delta /\
        (py_max 0 (coef - 4 * sd) <=? delta) = true /\
        (delta <=? coef + 4 * sd) = true /\
        (0 <=? delta) = true)).
Proof.
  intros norm_cdf minimize_scalar coef sd alpha Hsearch.
  destruct (validation_cases coef sd alpha)
    as [[Hc E]|[[Hc [Hs E]]|[[Hc [Hs [Ha E]]]|[Hc [Hs [Ha E]]]]]].
  1-3: split;
    [ intros _; eexists; split;
      [|intros norm_cdf' minimize_scalar';
        rewrite find_min_threshold_mean_unfold, E; reflexivity]; exact I
    | intros; congruence ].
  split; [intros [H|[H|H]]; congruence|].
  intros _ _ _.
  rewrite find_min_threshold_mean_unfold, E. simpl.
  split; [reflexivity|]. intros Hord.
  assert (Htotal : forall d, exists y, mean_objective norm_cdf coef sd alpha d = Ok y).
  { intros d.
    destruct (mean_objective_total norm_cdf coef sd alpha d Hc Hs)
      as [y Hy]. exists y. exact Hy. }
  destruct (Hsearch (mean_objective norm_cdf coef sd alpha) _ _ 1e-25 Htotal Hord)
    as [r [Hr [Hlo Hhi]]].
  exists (x r). rewrite Hr. simpl.
  repeat split; auto.
  apply (leb_zero_trans _ _ (py_max_zero_nonneg _) Hlo).
Qed.

Lemma find_min_threshold_mean_interval_witness :
  exists delta,
    find_min_threshold_mean step_cdf lower_end_search 0.1 0.05 0.05 = Ok delta /\
    (py_max 0 (0.1 - 4 * 0.05) <=? delta) = true /\
    (delta <=? 0.1 + 4 * 0.05) = true /\
    (0 <=? delta) = true.
Proof.
  apply (find_min_threshold_mean_interval step_cdf lower_end_search 0.1 0.05 0.05
           lower_end_search_bounded); reflexivity.
Defined.

Lemma opp_of_positive_negative (e : float) :
  (0 <? e) = true -> (- e <? 0) = true.
Proof.
  rewrite !ltb_spec, opp_spec, Prim2SF_zero. unfold SFltb.
  destruct (Prim2SF e) as [[ | ]|[ | ]| |[ | ] m ex]; simpl; congruence.
Qed.

(** X15. The wrapper that [find_min_threshold_bootstrap] minimises carries
    the verdict of the caller's test in its sign: at a margin [delta] where
    [np.exp(-delta)] is positive, its value is negative exactly when the
    test rejects. (Where [exp(-delta)] underflows to zero the two verdicts
    give [-0.0] and [0.0], which compare equal.) An error of the test is
    passed on. *)
Theorem wrapper_sign :
  forall (np_exp : float -> float) (bootstrap_test_func : float -> result bool)
         (delta : float),
    (forall reject, bootstrap_test_func delta = Ok reject ->
       (0 <? np_exp (- delta)) = true ->
       exists w, wrapper np_exp bootstrap_test_func delta = Ok w /\
                 (w <? 0) = reject) /\
    (forall e, bootstrap_test_func delta = Raise e ->
       wrapper np_exp bootstrap_test_func delta = Raise e).
Proof.
  intros np_exp f delta. unfold wrapper. split.
  - intros reject Hf Hpos. rewrite Hf. simpl. eexists. split; [reflexivity|].
    destruct reject.
    + apply opp_of_positive_negative. exact Hpos.
    + apply ltb_asym. exact Hpos.
  - intros e Hf. rewrite Hf. reflexivity.
Qed.

Lemma wrapper_total (np_exp : float -> float) (f : float -> result bool) :
  (forall d, exists b, f d = Ok b) ->
  forall d, exists y, wrapper np_exp f d = Ok y.
Proof.
  intros Hf d. destruct (Hf d) as [b Hb]. unfold wrapper. rewrite Hb. simpl.
  eexists; reflexivity.
Qed.

(** X16. [find_min_threshold_bootstrap] raises an InvalidArgument error,
    before the test function is ever called, when [max_abs_coef < 0] or
    [max_sd <= 0]. Otherwise it searches
    [[max_abs_coef, max_abs_coef + 15 max_sd]]: for a test function that
    always answers and an interval in order, a bounded minimiser returns a
    margin inside the interval, so never below [max_abs_coef] and never
    negative. *)
Theorem find_min_threshold_bootstrap_interval :
  forall (np_exp : float -> float) minimize_scalar_default
         (bootstrap_test_func : float -> result bool)
         (max_abs_coef max_sd : float),
    bounded_search_default minimize_scalar_default ->
    (((max_abs_coef <? 0) = true \/ (max_sd <=? 0) = true) ->
     exists e,
       InvalidArgument e /\
       forall np_exp' minimize_scalar_default' bootstrap_test_func',
         find_min_threshold_bootstrap minimize_scalar_default' np_exp'
           bootstrap_test_func' max_abs_coef max_sd = Raise e) /\
    ((max_abs_coef <? 0) = false -> (max_sd <=? 0) = false ->
     (forall d, exists b, bootstrap_test_func d = Ok b) ->
     (max_abs_coef <=? max_abs_coef + 15 * max_sd) = true ->
     exists delta,
       find_min_threshold_bootstrap minimize_scalar_default np_exp
         bootstrap_test_func max_abs_coef max_sd = Ok delta /\
       (max_abs_coef <=? delta) = true /\
       (delta <=? max_abs_coef + 15 * max_sd) = true /\
       (0 <=? delta) = true).
Proof.
  intros np_exp msd f mac msdev Hsearch.
  unfold find_min_threshold_bootstrap, _validate_non_negative, _validate_positive.
  split.
  - intros H. destruct (mac <? 0) eqn:Hc; simpl.
    + eexists. split; [|intros; reflexivity]. exact I.
    + destruct H as [H|H]; [discriminate|]. rewrite H. simpl.
      eexists. split; [|intros; reflexivity]. exact I.
  - intros Hc Hs Hf Hord. rewrite Hc, Hs. simpl.
    destruct (Hsearch (wrapper np_exp f) mac (mac + 15 * msdev)
                (wrapper_total np_exp f Hf) Hord) as [r [Hr [Hlo Hhi]]].
    exists (x r). rewrite Hr. simpl. repeat split; auto.
    apply (leb_zero_trans mac); [|exact Hlo].
    apply not_ltb_leb; [apply (leb_not_nan_l _ _ Hord)|reflexivity|].
    exact Hc.
Qed.

Lemma lower_end_search_default_bounded :
  bounded_search_default lower_end_search_default.
Proof.
  intros f lower upper _ H. eexists. split; [reflexivity|]. simpl.
  split; [|exact H]. apply leb_refl. apply (leb_not_nan_l _ _ H).
Qed.

Lemma wrapper_sign_witness :
  (exists w, wrapper crude_exp reject_above_3 4 = Ok w /\ (w <? 0) = true) /\
  (exists w, wrapper crude_exp reject_above_3 2 = Ok w /\ (w <? 0) = false).
Proof.
  split.
  - apply (proj1 (wrapper_sign crude_exp reject_above_3 4) true); reflexivity.
  - apply (proj1 (wrapper_sign crude_exp reject_above_3 2) false); reflexivity.
Defined.

Lemma find_min_threshold_bootstrap_interval_witness :
  exists delta,
    find_min_threshold_bootstrap lower_end_search_default crude_exp
      reject_above_3 1 0.5 = Ok delta /\
    (1 <=? delta) = true /\ (delta <=? 1 + 15 * 0.5) = true /\
    (0 <=? delta) = true.
Proof.
  apply (find_min_threshold_bootstrap_interval crude_exp lower_end_search_default
           reject_above_3 1 0.5 lower_end_search_default_bounded);
    try reflexivity.
  intros d. eexists; reflexivity.
Defined.

(** ** NaN on the way in *)

Lemma np_maximum_nan_l (a b : float) : is_nan a = true -> np_maximum a b = a.
Proof.
  intros H. unfold np_maximum. rewrite H, orb_true_r. reflexivity.
Qed.

Lemma np_maximum_nan_r (a b : float) :
  is_nan b = true -> is_nan (np_maximum a b) = true.
Proof.
  intros H. unfold np_maximum. rewrite (nan_not_leb_l _ _ H). simpl.
  destruct (is_nan a) eqn:Ha; assumption.
Qed.

Lemma fold_np_maximum_nan_acc (l : list float) (acc : float) :
  is_nan acc = true -> is_nan (fold_left np_maximum l acc) = true.
Proof.
  revert acc. induction l as [|a l IH]; intros acc H; simpl; [exact H|].
  apply IH. rewrite (np_maximum_nan_l _ _ H). exact H.
Qed.

Lemma fold_np_maximum_nan_in (l : list float) (acc v : float) :
  In v l -> is_nan v = true -> is_nan (fold_left np_maximum l acc) = true.
Proof.
  revert acc. induction l as [|a l IH]; intros acc Hin Hv; simpl in *;
    [contradiction|].
  destruct Hin as [->|Hin].
  - apply fold_np_maximum_nan_acc. apply np_maximum_nan_r. exact Hv.
  - apply (IH _ Hin Hv).
Qed.

Lemma abs_nan (v : float) : is_nan v = true -> is_nan (abs v) = true.
Proof.
  intros H. unfold is_nan. rewrite eqb_spec, abs_spec, (is_nan_true _ H).
  reflexivity.
Qed.

Lemma np_max_abs_nan (a : list float) (v : float) :
  In v a -> is_nan v = true ->
  exists m, np_max (np_abs a) = Ok m /\ is_nan m = true.
Proof.
  intros Hin Hv. destruct a as [|a0 rest]; [contradiction|]. simpl.
  eexists. split; [reflexivity|].
  destruct Hin as [->|Hin].
  - apply fold_np_maximum_nan_acc. apply abs_nan. exact Hv.
  - apply (fold_np_maximum_nan_in _ _ (abs v)).
    + apply in_map. exact Hin.
    + apply abs_nan. exact Hv.
Qed.

Lemma nan_not_leb_r (a b : float) : is_nan b = true -> (a <=? b) = false.
Proof.
  intros H. rewrite leb_spec, (is_nan_true _ H). unfold SFleb.
  destruct (Prim2SF a); reflexivity.
Qed.

(** X17. A NaN among the first [no_placebos] starting coefficients keeps
    [constrained_ols] off the fast path: [np.max] hands the NaN on, the test
    [NaN >= delta] is false, and the optimizer is run from the starting
    vector that holds the NaN. *)
Theorem constrained_ols_nan_start_runs_optimizer :
  forall (np : numpy) minimize (Y : list float) (X : list (list float)) (delta : float)
         (k : Z) (start_val : list float) (v : float),
    (1 <= k)%Z -> (0 <? delta) = true ->
    In v (slice_to start_val k) -> is_nan v = true ->
    exists evs r,
      constrained_ols np minimize Y X delta k start_val None
        = (ev_minimize start_val first_run_options :: evs, r).
Proof.
  intros np minimize Y X delta k start_val v Hk Hd Hin Hv.
  destruct (np_max_abs_nan _ v Hin Hv) as [m [Hm Hnan]].
  apply (constrained_ols_runs_optimizer np minimize Y X delta k start_val None m);
    auto.
  apply nan_not_leb_r. exact Hnan.
Qed.

Lemma constrained_ols_nan_start_runs_optimizer_witness :
  exists evs r,
    constrained_ols index_order stay_put [1; 2] [[1; 0]; [0; 1]] 0.5 2 [0.7; nan] None
      = (ev_minimize [0.7; nan] first_run_options :: evs, r).
Proof.
  apply (constrained_ols_nan_start_runs_optimizer index_order stay_put [1; 2]
           [[1; 0]; [0; 1]] 0.5 2 [0.7; nan] nan);
    [discriminate | reflexivity | right; left; reflexivity | reflexivity].
Defined.

Lemma mul_nan_r (a b : float) : is_nan b = true -> is_nan (a * b) = true.
Proof.
  intros H. unfold is_nan. rewrite eqb_spec, mul_spec, (is_nan_true _ H).
  replace (SF64mul (Prim2SF a) S754_nan) with S754_nan
    by (destruct (Prim2SF a); reflexivity).
  reflexivity.
Qed.

Lemma sub_nan_r (a b : float) : is_nan b = true -> is_nan (a - b) = true.
Proof.
  intros H. unfold is_nan. rewrite eqb_spec, sub_spec, (is_nan_true _ H).
  replace (SF64sub (Prim2SF a) S754_nan) with S754_nan
    by (destruct (Prim2SF a); reflexivity).
  reflexivity.
Qed.

Lemma leb_both_ways_eqb (a b : float) :
  (a <=? b) = true -> (b <=? a) = true -> (b =? a) = true.
Proof. float_compare a b. Qed.

(** X18. A NaN standard error passes the checks of [find_min_threshold_iu]
    ([NaN <= 0] is false), and then both ends of the search interval are
    [0.0]: [max(0.0, coef - NaN)] is [0.0] and Python's [min] and [max] keep
    it against the NaN upper end. A bounded minimiser can only answer a
    margin equal to zero. *)
Theorem find_min_threshold_iu_nan_sd :
  forall norm_cdf minimize_scalar (coef sd alpha : float),
    bounded_search minimize_scalar ->
    is_nan sd = true -> (coef <? 0) = false ->
    (0 <? alpha) = true -> (alpha <? 1) = true ->
    exists delta,
      find_min_threshold_iu norm_cdf minimize_scalar coef sd alpha = Ok delta /\
      (delta =? 0) = true.
Proof.
  intros norm_cdf minimize_scalar coef sd alpha Hsearch Hsd Hc Ha0 Ha1.
  destruct (iu_returns_within norm_cdf minimize_scalar coef sd alpha Hsearch Hc
              (nan_not_leb_l _ _ Hsd)) as [delta [Hd [Hlo Hhi]]].
  - rewrite Ha0, Ha1. reflexivity.
  - exists delta. split; [exact Hd|].
    assert (Hu : is_nan (10 * sd) = true) by (apply mul_nan_r; exact Hsd).
    assert (Hl : py_max 0 (coef - 10 * sd) = 0).
    { unfold py_max. rewrite (nan_not_ltb_r _ _ (sub_nan_r coef _ Hu)).
      reflexivity. }
    rewrite Hl in Hlo, Hhi. unfold py_min in Hlo. unfold py_max in Hhi.
    rewrite (nan_not_ltb_l _ _ Hu) in Hlo.
    rewrite (nan_not_ltb_r _ _ Hu) in Hhi.
    apply leb_both_ways_eqb; assumption.
Qed.

Lemma find_min_threshold_iu_nan_sd_witness :
  exists delta,
    find_min_threshold_iu step_cdf lower_end_search 0.1 nan 0.05 = Ok delta /\
    (delta =? 0) = true.
Proof.
  apply (find_min_threshold_iu_nan_sd step_cdf lower_end_search 0.1 nan 0.05
           lower_end_search_bounded); reflexivity.
Defined.
